(** * Dialer: the connection and call-session state machine of the web dialer

    Shallow embedding of [src/components/Dialer.tsx].  The React component
    keeps eight pieces of state ([useState]), two mutable references
    ([useRef]) and talks to the JsSIP engine through method calls and event
    handlers.  Every handler of the component runs on one thread, so a
    handler is modelled as a function from the world before it to the world
    after it.  The world also records, in order, every call the component
    makes on an engine object, which is what a spy engine would see.

    The engine is not part of the component.  A method of the engine may
    call handlers of the component before it returns, and it may raise; what
    it does is an input of the handler that calls it.  Only [connect] catches
    what the engine raises: in the other handlers a raise ends the handler
    where it stands. *)

From Stdlib Require Import List String Ascii Bool Arith Lia.
Import ListNotations.
Local Open Scope string_scope.
Local Open Scope list_scope.

(** ** Data model *)

Inductive ConnectionStatus : Type :=
| disconnected
| connecting
| connected
| registered
| registration_failed.

Inductive CallState : Type :=
| idle
| calling
| in_call
| terminated
| failed.

(** Engine objects are opaque to the component; only their identity
    matters.  Each [new JsSIP.UA] that returns yields an object not seen
    before (user agents are numbered in the order of their creation); the
    engine chooses the identities of sessions. *)
Definition UA := nat.
Definition RTCSession := nat.

Inductive UAEventName : Type :=
| on_connected
| on_disconnected
| on_registered
| on_unregistered
| on_registrationFailed
| on_newRTCSession.

Inductive SessionEventName : Type :=
| on_progress
| on_confirmed
| on_ended
| on_failed.

(** The configuration object given to [new JsSIP.UA]. *)
Record UAConfiguration : Type := mkUAConfiguration {
  sockets : list string;
  uri : string;
  cfg_password : string;
  display_name : string;
  session_timers : bool
}.

Record MediaConstraints : Type := mkMediaConstraints {
  audio : bool;
  video : bool
}.

Record IceServer : Type := mkIceServer {
  urls : list string
}.

Record PcConfig : Type := mkPcConfig {
  rtcpMuxPolicy : string;
  iceServers : list IceServer
}.

(** The options object of [ua.call]; [eventHandlers] lists the events for
    which the object carries a callback. *)
Record RTCSessionOptions : Type := mkRTCSessionOptions {
  eventHandlers : list SessionEventName;
  mediaConstraints : MediaConstraints;
  pcConfig : PcConfig
}.

(** What the component asks of the engine. *)
Inductive EngineCall : Type :=
| NewWebSocketInterface (url : string)
| NewUA (cfg : UAConfiguration)
| UAOn (ua : UA) (ev : UAEventName)
| UAStart (ua : UA)
| UAStop (ua : UA)
| UACall (ua : UA) (target : string) (options : RTCSessionOptions)
| SessionOn (session : RTCSession) (ev : SessionEventName)
| SessionTerminate (session : RTCSession)
| SessionSendDTMF (session : RTCSession) (digit : string).

Record World : Type := mkWorld {
  wsUri : string;
  sipUri : string;
  displayName : string;
  password : string;
  status : ConnectionStatus;
  callState : CallState;
  number : string;
  logEntries : list string;
  uaRef : option UA;
  activeSessionRef : option RTCSession;
  engine : list EngineCall;
  nextUA : UA
}.

(** The state of a freshly mounted component. *)
Definition initial : World :=
  {| wsUri := "wss://sip.example.com:7443";
     sipUri := "sip:1001@sip.example.com";
     displayName := "Web Agent";
     password := "";
     status := disconnected;
     callState := idle;
     number := "";
     logEntries := [];
     uaRef := None;
     activeSessionRef := None;
     engine := [];
     nextUA := 0 |}.

(** ** Actions *)

Definition Action : Type := World -> World.

Definition andThen (a b : Action) : Action := fun w => b (a w).
Notation "a ;; b" := (andThen a b) (at level 61, right associativity).

Definition skip : Action := fun w => w.

Definition setWsUri (v : string) : Action := fun w =>
  mkWorld v (sipUri w) (displayName w) (password w) (status w) (callState w)
          (number w) (logEntries w) (uaRef w) (activeSessionRef w) (engine w)
          (nextUA w).

Definition setSipUri (v : string) : Action := fun w =>
  mkWorld (wsUri w) v (displayName w) (password w) (status w) (callState w)
          (number w) (logEntries w) (uaRef w) (activeSessionRef w) (engine w)
          (nextUA w).

Definition setDisplayName (v : string) : Action := fun w =>
  mkWorld (wsUri w) (sipUri w) v (password w) (status w) (callState w)
          (number w) (logEntries w) (uaRef w) (activeSessionRef w) (engine w)
          (nextUA w).

Definition setPassword (v : string) : Action := fun w =>
  mkWorld (wsUri w) (sipUri w) (displayName w) v (status w) (callState w)
          (number w) (logEntries w) (uaRef w) (activeSessionRef w) (engine w)
          (nextUA w).

Definition setStatus (v : ConnectionStatus) : Action := fun w =>
  mkWorld (wsUri w) (sipUri w) (displayName w) (password w) v (callState w)
          (number w) (logEntries w) (uaRef w) (activeSessionRef w) (engine w)
          (nextUA w).

Definition setCallState (v : CallState) : Action := fun w =>
  mkWorld (wsUri w) (sipUri w) (displayName w) (password w) (status w) v
          (number w) (logEntries w) (uaRef w) (activeSessionRef w) (engine w)
          (nextUA w).

(** [setNumber] and [setLogEntries] are used with an updater function. *)
Definition setNumber (f : string -> string) : Action := fun w =>
  mkWorld (wsUri w) (sipUri w) (displayName w) (password w) (status w)
          (callState w) (f (number w)) (logEntries w) (uaRef w)
          (activeSessionRef w) (engine w) (nextUA w).

Definition setLogEntries (f : list string -> list string) : Action := fun w =>
  mkWorld (wsUri w) (sipUri w) (displayName w) (password w) (status w)
          (callState w) (number w) (f (logEntries w)) (uaRef w)
          (activeSessionRef w) (engine w) (nextUA w).

Definition setUaRef (v : option UA) : Action := fun w =>
  mkWorld (wsUri w) (sipUri w) (displayName w) (password w) (status w)
          (callState w) (number w) (logEntries w) v (activeSessionRef w)
          (engine w) (nextUA w).

Definition setActiveSessionRef (v : option RTCSession) : Action := fun w =>
  mkWorld (wsUri w) (sipUri w) (displayName w) (password w) (status w)
          (callState w) (number w) (logEntries w) (uaRef w) v (engine w)
          (nextUA w).

(** A method call on an engine object, appended to the record of calls. *)
Definition call (c : EngineCall) : Action := fun w =>
  mkWorld (wsUri w) (sipUri w) (displayName w) (password w) (status w)
          (callState w) (number w) (logEntries w) (uaRef w)
          (activeSessionRef w) (engine w ++ [c]) (nextUA w).

Definition allocUA : Action := fun w =>
  mkWorld (wsUri w) (sipUri w) (displayName w) (password w) (status w)
          (callState w) (number w) (logEntries w) (uaRef w)
          (activeSessionRef w) (engine w) (S (nextUA w)).

(** JavaScript helpers: [Array.prototype.slice(0, n)], [String.prototype.slice(0, n)],
    truthiness of a string, and [x || 'unknown'] on an optional string. *)
Definition slice_list {A : Type} (n : nat) (l : list A) : list A := firstn n l.

Definition slice_string (n : nat) (s : string) : string := substring 0 n s.

Definition truthy (s : string) : bool :=
  match s with
  | EmptyString => false
  | String _ _ => true
  end.

Definition or_unknown (cause : option string) : string :=
  match cause with
  | Some c => if truthy c then c else "unknown"
  | None => "unknown"
  end.

(** ** The component *)

Definition log_capacity : nat := 20.
Definition number_capacity : nat := 32.

Definition addLog_entries (message : string) (prev : list string) : list string :=
  slice_list log_capacity (message :: prev).

Definition addLog (message : string) : Action :=
  setLogEntries (addLog_entries message).

Definition isConnected (w : World) : bool :=
  match status w with
  | connected | registered => true
  | _ => false
  end.

(** *** Handlers installed on the user agent by [connect] *)

Definition ua_connected : Action :=
  setStatus connected ;; addLog "Socket connected.".

Definition ua_disconnected : Action :=
  setStatus disconnected ;; setCallState terminated ;; addLog "Socket disconnected.".

Definition ua_registered : Action :=
  setStatus registered ;; addLog "Registered with SIP server.".

Definition ua_unregistered : Action :=
  setStatus connected ;; addLog "Unregistered.".

Definition ua_registrationFailed (cause : option string) : Action :=
  setStatus registration_failed ;;
  addLog ("Registration failed: " ++ or_unknown cause).

Definition updateState (state : CallState) (message : string) : Action :=
  setCallState state ;; addLog message.

Definition ua_newRTCSession (session : RTCSession) : Action :=
  setActiveSessionRef (Some session) ;;
  call (SessionOn session on_progress) ;;
  call (SessionOn session on_confirmed) ;;
  call (SessionOn session on_ended) ;;
  call (SessionOn session on_failed).

(** Handlers installed on a session by the [newRTCSession] handler. *)
Definition session_progress : Action := updateState calling "Call in progress...".
Definition session_confirmed : Action := updateState in_call "Call confirmed.".
Definition session_ended : Action := updateState terminated "Call ended.".
Definition session_failed (cause : option string) : Action :=
  updateState failed ("Call failed: " ++ or_unknown cause).

(** Callbacks carried by the options object of [dial]. *)
Definition dial_progress : Action := setCallState calling.
Definition dial_failed (cause : option string) : Action :=
  setCallState failed ;; addLog ("Call failed: " ++ or_unknown cause).
Definition dial_confirmed : Action := setCallState in_call.
Definition dial_ended : Action := setCallState terminated.

Definition dial_options : RTCSessionOptions :=
  {| eventHandlers := [on_progress; on_failed; on_confirmed; on_ended];
     mediaConstraints := {| audio := true; video := false |};
     pcConfig := {| rtcpMuxPolicy := "require";
                    iceServers := [ {| urls := ["stun:stun.l.google.com:19302"] |} ] |} |}.

(** *** Events of the engine

    The engine fires events of a user agent and of a session.  For a session
    placed by [dial] it runs both the callbacks of the options object and
    the handlers installed by the [newRTCSession] handler; the two are told
    apart here. *)

Inductive UAEvent : Type :=
| ev_connected
| ev_disconnected
| ev_registered
| ev_unregistered
| ev_registrationFailed (cause : option string)
| ev_newRTCSession (session : RTCSession).

Inductive SessionEvent : Type :=
| ev_progress
| ev_confirmed
| ev_ended
| ev_failed (cause : option string).

Definition on_ua_event (e : UAEvent) : Action :=
  match e with
  | ev_connected => ua_connected
  | ev_disconnected => ua_disconnected
  | ev_registered => ua_registered
  | ev_unregistered => ua_unregistered
  | ev_registrationFailed cause => ua_registrationFailed cause
  | ev_newRTCSession session => ua_newRTCSession session
  end.

Definition on_session_event (e : SessionEvent) : Action :=
  match e with
  | ev_progress => session_progress
  | ev_confirmed => session_confirmed
  | ev_ended => session_ended
  | ev_failed cause => session_failed cause
  end.

Definition on_call_event (e : SessionEvent) : Action :=
  match e with
  | ev_progress => dial_progress
  | ev_confirmed => dial_confirmed
  | ev_ended => dial_ended
  | ev_failed cause => dial_failed cause
  end.

Inductive EngineEvent : Type :=
| FromUA (e : UAEvent)
| FromSession (e : SessionEvent)
| FromCall (e : SessionEvent).

Definition on_engine_event (e : EngineEvent) : Action :=
  match e with
  | FromUA e => on_ua_event e
  | FromSession e => on_session_event e
  | FromCall e => on_call_event e
  end.

(** The handlers of a sequence of events, run one after the other. *)
Fixpoint fire (events : list EngineEvent) : Action :=
  match events with
  | [] => skip
  | e :: rest => on_engine_event e ;; fire rest
  end.

(** *** Statements that may raise *)

Inductive Completion : Type :=
| Normal
| Throw (message : string).

Definition Stmt : Type := World -> Completion * World.

Definition run_action (a : Action) : Stmt := fun w => (Normal, a w).

Definition raise (message : string) : Stmt := fun w => (Throw message, w).

Definition thenStmt (a b : Stmt) : Stmt := fun w =>
  match a w with
  | (Normal, w') => b w'
  | (Throw m, w') => (Throw m, w')
  end.
Notation "a >> b" := (thenStmt a b) (at level 62, right associativity).

Definition try_catch (body : Stmt) (handler : string -> Action) : Action := fun w =>
  match body w with
  | (Normal, w') => w'
  | (Throw m, w') => handler m w'
  end.

(** A handler in which nothing catches: a raise ends it, and what it wrote
    before stays written. *)
Definition uncaught (body : Stmt) : Action := fun w => snd (body w).

(** What a method of the engine does when called: the events it fires
    before it comes back, whose handlers run inside the call, and whether it
    then returns or raises. *)
Record Reply : Type := mkReply {
  fired : list EngineEvent;
  thrown : option string
}.

Definition returns : Reply := {| fired := []; thrown := None |}.

Definition raises (message : string) : Reply :=
  {| fired := []; thrown := Some message |}.

Definition announces (session : RTCSession) : Reply :=
  {| fired := [FromUA (ev_newRTCSession session)]; thrown := None |}.

(** The world once the method has been called and the handlers of the
    events it fired have run. *)
Definition after_call (c : EngineCall) (r : Reply) : Action :=
  call c ;; fire (fired r).

Definition invoke (c : EngineCall) (r : Reply) : Stmt :=
  run_action (after_call c r) >>
  match thrown r with
  | Some m => raise m
  | None => run_action skip
  end.

(** [activeSessionRef.current?.terminate()] and [uaRef.current?.stop()]. *)
Definition terminate_active (r : Reply) : Stmt := fun w =>
  match activeSessionRef w with
  | Some session => invoke (SessionTerminate session) r w
  | None => (Normal, w)
  end.

Definition stop_ua (r : Reply) : Stmt := fun w =>
  match uaRef w with
  | Some ua => invoke (UAStop ua) r w
  | None => (Normal, w)
  end.

(** The cleanup of the mount effect. *)
Definition unmount (rt rs : Reply) : Action :=
  uncaught (terminate_active rt >> stop_ua rs).

(** *** connect *)

(** The engine may raise while the transport is built.  The outcome is the
    engine's and is an input of [connect]. *)
Inductive EngineOutcome : Type :=
| Built
| SocketRaises (message : string)
| UARaises (message : string)
| StartRaises (message : string).

Definition new_WebSocketInterface (o : EngineOutcome) (url : string) : Stmt :=
  run_action (call (NewWebSocketInterface url)) >>
  match o with
  | SocketRaises m => raise m
  | _ => run_action skip
  end.

(** [new JsSIP.UA(cfg)]: when the constructor returns, the new user agent
    is the object [nextUA] of the world before the call. *)
Definition new_UA (o : EngineOutcome) (cfg : UAConfiguration) : Stmt :=
  match o with
  | UARaises m => run_action (call (NewUA cfg)) >> raise m
  | _ => run_action (call (NewUA cfg) ;; allocUA)
  end.

Definition ua_start (o : EngineOutcome) (ua : UA) : Stmt :=
  run_action (call (UAStart ua)) >>
  match o with
  | StartRaises m => raise m
  | _ => run_action skip
  end.

Definition connect_body (o : EngineOutcome) : Stmt := fun w =>
  let ua := nextUA w in
  (new_WebSocketInterface o (wsUri w) >>
   new_UA o {| sockets := [wsUri w];
               uri := sipUri w;
               cfg_password := password w;
               display_name := displayName w;
               session_timers := false |} >>
   run_action (call (UAOn ua on_connected) ;;
               call (UAOn ua on_disconnected) ;;
               call (UAOn ua on_registered) ;;
               call (UAOn ua on_unregistered) ;;
               call (UAOn ua on_registrationFailed) ;;
               call (UAOn ua on_newRTCSession)) >>
   ua_start o ua >>
   run_action (setUaRef (Some ua) ;;
               setStatus connecting ;;
               addLog "Connecting...")) w.

Definition connect (o : EngineOutcome) : Action := fun w =>
  if negb (truthy (wsUri w)) || negb (truthy (sipUri w)) || negb (truthy (password w))
  then addLog "Please provide WebSocket URL, SIP URI, and password." w
  else try_catch (connect_body o)
         (fun message => addLog ("Connection error: " ++ message) ;;
                         setStatus disconnected) w.

(** *** disconnect, dial, hangup, handleKeypad *)

Definition disconnect (rt rs : Reply) : Action :=
  uncaught (terminate_active rt >>
            stop_ua rs >>
            run_action (setStatus disconnected ;;
                        setCallState terminated ;;
                        addLog "Disconnected from server.")).

Definition dial (r : Reply) : Action := fun w =>
  match uaRef w with
  | Some ua =>
      if isConnected w then
        if negb (truthy (number w))
        then addLog "Enter a destination number." w
        else uncaught (invoke (UACall ua (number w) dial_options) r >>
                       run_action (addLog ("Dialing " ++ number w ++ "..."))) w
      else addLog "Connect to the SIP server first." w
  | None => addLog "Connect to the SIP server first." w
  end.

Definition hangup (r : Reply) : Action := fun w =>
  match activeSessionRef w with
  | None => w
  | Some session =>
      uncaught (invoke (SessionTerminate session) r >>
                run_action (setCallState terminated ;;
                            addLog "Call terminated.")) w
  end.

Definition send_dtmf (digit : string) : Action := fun w =>
  match activeSessionRef w with
  | Some session => call (SessionSendDTMF session digit) w
  | None => w
  end.

Definition handleKeypad (digit : string) : Action :=
  setNumber (fun prev => slice_string number_capacity (prev ++ digit)) ;;
  send_dtmf digit.

(** ** Runs of the component

    The user interface issues commands and edits the form fields; the engine
    fires events, which run the handlers the component installed.  A click
    that reaches a method of the engine carries what that method does. *)

Inductive Input : Type :=
| TypeWsUri (v : string)
| TypeSipUri (v : string)
| TypeDisplayName (v : string)
| TypePassword (v : string)
| TypeNumber (v : string)
| ClickClear
| ClickConnect (o : EngineOutcome)
| ClickDisconnect (rt rs : Reply)
| ClickCall (r : Reply)
| ClickHangup (r : Reply)
| ClickKey (digit : string)
| UAFires (e : UAEvent)
| SessionFires (e : SessionEvent)
| CallFires (e : SessionEvent).

Definition step (i : Input) : Action :=
  match i with
  | TypeWsUri v => setWsUri v
  | TypeSipUri v => setSipUri v
  | TypeDisplayName v => setDisplayName v
  | TypePassword v => setPassword v
  | TypeNumber v => setNumber (fun _ => v)
  | ClickClear => setNumber (fun _ => "")
  | ClickConnect o => connect o
  | ClickDisconnect rt rs => disconnect rt rs
  | ClickCall r => dial r
  | ClickHangup r => hangup r
  | ClickKey digit => handleKeypad digit
  | UAFires e => on_ua_event e
  | SessionFires e => on_session_event e
  | CallFires e => on_call_event e
  end.

Fixpoint run (inputs : list Input) (w : World) : World :=
  match inputs with
  | [] => w
  | i :: rest => run rest (step i w)
  end.

(** [append_all ms] appends the messages [ms] to the log, first to last. *)
Fixpoint append_all (ms : list string) (w : World) : World :=
  match ms with
  | [] => w
  | m :: rest => append_all rest (addLog m w)
  end.

(** The calls a handler made on the engine: what [engine] gained. *)
Definition calls_since (before after : World) : list EngineCall :=
  skipn (List.length (engine before)) (engine after).

(** ** Vocabulary of the statements and sample worlds *)

Definition log_after (ms : list string) : list string :=
  logEntries (append_all ms initial).

Definition twenty_five_messages : list string :=
  ["m01"; "m02"; "m03"; "m04"; "m05"; "m06"; "m07"; "m08"; "m09"; "m10";
   "m11"; "m12"; "m13"; "m14"; "m15"; "m16"; "m17"; "m18"; "m19"; "m20";
   "m21"; "m22"; "m23"; "m24"; "m25"].

Definition missing_credentials_message : string :=
  "Please provide WebSocket URL, SIP URI, and password.".

(** A world in which the transport is up and a number has been typed. *)
Definition online_inputs : list Input :=
  [TypePassword "secret"; ClickConnect Built; UAFires ev_connected;
   TypeNumber "555"].

Definition online : World := run online_inputs initial.

Definition online_cleared : World := step ClickClear online.

Definition thirty_two_digits : string := "12345678901234567890123456789012".

Definition full_number_in_call : World :=
  run [TypeNumber thirty_two_digits; UAFires (ev_newRTCSession 4)] online.

Definition credentials_present (w : World) : bool :=
  truthy (wsUri w) && truthy (sipUri w) && truthy (password w).

Definition ua_configuration (w : World) : UAConfiguration :=
  {| sockets := [wsUri w];
     uri := sipUri w;
     cfg_password := password w;
     display_name := displayName w;
     session_timers := false |}.

(** The calls of a connect that the engine lets through. *)
Definition connect_calls (w : World) : list EngineCall :=
  [NewWebSocketInterface (wsUri w);
   NewUA (ua_configuration w);
   UAOn (nextUA w) on_connected;
   UAOn (nextUA w) on_disconnected;
   UAOn (nextUA w) on_registered;
   UAOn (nextUA w) on_unregistered;
   UAOn (nextUA w) on_registrationFailed;
   UAOn (nextUA w) on_newRTCSession;
   UAStart (nextUA w)].

(** The user agent a call on the engine is addressed to. *)
Definition ua_of_call (c : EngineCall) : option UA :=
  match c with
  | UAOn ua _ | UAStart ua | UAStop ua | UACall ua _ _ => Some ua
  | _ => None
  end.

Definition is_stop (c : EngineCall) : bool :=
  match c with
  | UAStop _ => true
  | _ => false
  end.

(** Every user agent the component knows of has been created. *)
Definition handles_created (w : World) : Prop :=
  (forall ua, uaRef w = Some ua -> ua < nextUA w) /\
  (forall c ua, In c (engine w) -> ua_of_call c = Some ua -> ua < nextUA w).

Definition connection_error (message : string) : string :=
  "Connection error: " ++ message.

(** The calls made before the engine raises, and whether a user agent had
    been created by then. *)
Definition calls_before_raise (o : EngineOutcome) (w : World) : list EngineCall :=
  match o with
  | SocketRaises _ => [NewWebSocketInterface (wsUri w)]
  | UARaises _ => [NewWebSocketInterface (wsUri w); NewUA (ua_configuration w)]
  | _ => connect_calls w
  end.

Definition raised (o : EngineOutcome) : option string :=
  match o with
  | Built => None
  | SocketRaises m | UARaises m | StartRaises m => Some m
  end.

Definition registered_inputs : list Input :=
  [TypePassword "secret"; ClickConnect Built; UAFires ev_connected;
   UAFires ev_registered].

Definition registered_world : World := run registered_inputs initial.

(** Credentials are typed in, with a transport address that is no URI. *)
Definition malformed_uri_world : World :=
  run [TypePassword "secret"; TypeWsUri "nonsense"] initial.

Definition session_subscriptions (session : RTCSession) : list EngineCall :=
  [SessionOn session on_progress; SessionOn session on_confirmed;
   SessionOn session on_ended; SessionOn session on_failed].

(** An inbound session has been adopted and is ringing. *)
Definition ringing_inputs : list Input :=
  [TypePassword "secret"; ClickConnect Built; UAFires ev_connected;
   UAFires ev_registered; UAFires (ev_newRTCSession 1);
   SessionFires ev_progress].

Definition ringing_world : World := run ringing_inputs initial.

(** What the engine does on terminate for a session that is ringing: it
    fires the failed event of the session inside the call and returns. *)
Definition rejected_inside : Reply :=
  {| fired := [FromSession (ev_failed (Some "Rejected"))]; thrown := None |}.

(** A second and a third session arrive while the first is ringing. *)
Definition two_sessions_inputs : list Input :=
  [UAFires (ev_newRTCSession 2); SessionFires ev_ended;
   UAFires (ev_newRTCSession 3); SessionFires (ev_failed None)].

(** A call was placed and has failed: its session is still held. *)
Definition failed_call_world : World :=
  run [ClickCall (announces 1); CallFires (ev_failed (Some "Busy"));
       SessionFires (ev_failed (Some "Busy"))] online.

(** The session ends, then the user hangs up and disconnects; the engine
    raises on the session that is over. *)
Definition persist_inputs : list Input :=
  [SessionFires ev_confirmed; SessionFires ev_ended;
   ClickHangup (raises "Invalid status: 8");
   ClickDisconnect (raises "Invalid status: 8") returns].

(** *** Events delivered inside the calls of a handler *)

Definition announcement (e : EngineEvent) : option RTCSession :=
  match e with
  | FromUA (ev_newRTCSession session) => Some session
  | _ => None
  end.

(** The subscriptions made by the handlers of a sequence of events, and the
    session held once they have run. *)
Fixpoint subscriptions_of (events : list EngineEvent) : list EngineCall :=
  match events with
  | [] => []
  | e :: rest =>
      match announcement e with
      | Some session => session_subscriptions session
      | None => []
      end ++ subscriptions_of rest
  end.

Fixpoint last_session (events : list EngineEvent) (held : option RTCSession)
  : option RTCSession :=
  match events with
  | [] => held
  | e :: rest =>
      last_session rest
        (match announcement e with Some session => Some session | None => held end)
  end.

Definition announces_none (events : list EngineEvent) : bool :=
  forallb (fun e => match announcement e with Some _ => false | None => true end)
          events.

(** Two worlds that show the same connection state, call state and log. *)
Definition state_agrees (w1 w2 : World) : Prop :=
  status w1 = status w2 /\ callState w1 = callState w2 /\
  logEntries w1 = logEntries w2.

(** Whether the guards of [dial] let it reach [ua.call]. *)
Definition dial_reaches_engine (w : World) : bool :=
  match uaRef w with
  | Some _ => isConnected w && truthy (number w)
  | None => false
  end.

(** [disconnect] and the cleanup call terminate on the held session, then
    stop on the held user agent unless terminate raised. *)
Definition terminate_raises (rt : Reply) (w : World) : bool :=
  match activeSessionRef w, thrown rt with
  | Some _, Some _ => true
  | _, _ => false
  end.

Definition stop_raises (rs : Reply) (w : World) : bool :=
  match uaRef w, thrown rs with
  | Some _, Some _ => true
  | _, _ => false
  end.

Definition cleanup_completes (rt rs : Reply) (w : World) : bool :=
  negb (terminate_raises rt w) && negb (stop_raises rs w).

Definition cleanup_events (rt rs : Reply) (w : World) : list EngineEvent :=
  match activeSessionRef w with
  | Some _ => fired rt
  | None => []
  end ++
  (if terminate_raises rt w then []
   else match uaRef w with
        | Some _ => fired rs
        | None => []
        end).

Definition cleanup_calls (rt rs : Reply) (w : World) : list EngineCall :=
  match activeSessionRef w with
  | Some session => SessionTerminate session :: subscriptions_of (fired rt)
  | None => []
  end ++
  (if terminate_raises rt w then []
   else match uaRef w with
        | Some ua => UAStop ua :: subscriptions_of (fired rs)
        | None => []
        end).

Definition disconnect_message : string := "Disconnected from server.".

(** The events whose handlers run during an input, in order. *)
Definition delivered (i : Input) (w : World) : list EngineEvent :=
  match i with
  | ClickDisconnect rt rs => cleanup_events rt rs w
  | ClickCall r => if dial_reaches_engine w then fired r else []
  | ClickHangup r =>
      match activeSessionRef w with
      | Some _ => fired r
      | None => []
      end
  | UAFires e => [FromUA e]
  | SessionFires e => [FromSession e]
  | CallFires e => [FromCall e]
  | _ => []
  end.

Fixpoint delivered_in (inputs : list Input) (w : World) : list EngineEvent :=
  match inputs with
  | [] => []
  | i :: rest => delivered i w ++ delivered_in rest (step i w)
  end.

(** The events an input carries in the replies of the engine. *)
Definition reply_events (i : Input) : list EngineEvent :=
  match i with
  | ClickDisconnect rt rs => fired rt ++ fired rs
  | ClickCall r => fired r
  | ClickHangup r => fired r
  | _ => []
  end.

(** The number of handlers an input can run: its own and one for each
    event fired inside a reply. *)
Definition handlers_run (i : Input) : nat := S (List.length (reply_events i)).

Fixpoint handlers_run_in (inputs : list Input) : nat :=
  match inputs with
  | [] => 0
  | i :: rest => handlers_run i + handlers_run_in rest
  end.

(** ** The rendered view

    What a render of the component performed in a given world shows, for the
    parts of the markup that depend on the state or on a reference.  Names of
    states are the string literals of the source. *)

Definition keypad : list string :=
  ["1"; "2"; "3"; "4"; "5"; "6"; "7"; "8"; "9"; "*"; "0"; "#"].

Definition status_name (s : ConnectionStatus) : string :=
  match s with
  | disconnected => "disconnected"
  | connecting => "connecting"
  | connected => "connected"
  | registered => "registered"
  | registration_failed => "registration-failed"
  end.

Definition call_state_name (s : CallState) : string :=
  match s with
  | idle => "idle"
  | calling => "calling"
  | in_call => "in-call"
  | terminated => "terminated"
  | failed => "failed"
  end.

(** [s.replace(p, r)] for one-character strings [p] and [r]: only the first
    occurrence is replaced. *)
Fixpoint replace_first (p r : ascii) (s : string) : string :=
  match s with
  | EmptyString => EmptyString
  | String c rest =>
      if Ascii.eqb c p then String r rest
      else String c (replace_first p r rest)
  end.

Inductive ActionButton : Type :=
| HangUpButton
| CallButton (disabled : bool).

Inductive LogPanel : Type :=
| NoEvents (notice : string)
| LogList (entries : list string).

Record View : Type := mkView {
  heading : string;
  status_pill_class : string;
  status_pill_text : string;
  disconnect_disabled : bool;
  connect_label : string;
  call_pill_class : string;
  call_pill_text : string;
  online_pill_class : string;
  online_pill_text : string;
  number_value : string;
  action_button : ActionButton;
  keys : list string;
  log_panel : LogPanel
}.

(** The [title] property is optional and defaults to 'Web Dialer'. *)
Definition render (title : option string) (w : World) : View :=
  {| heading := match title with Some t => t | None => "Web Dialer" end;
     status_pill_class := "status-pill status-" ++ status_name (status w);
     status_pill_text := replace_first "-" " " (status_name (status w));
     disconnect_disabled := match uaRef w with Some _ => false | None => true end;
     connect_label := match status w with
                      | connecting => "Connecting..."
                      | _ => "Connect"
                      end;
     call_pill_class := "status-pill call-" ++ call_state_name (callState w);
     call_pill_text := call_state_name (callState w);
     online_pill_class := "status-pill " ++
                          (if isConnected w then "status-up" else "status-down");
     online_pill_text := if isConnected w then "Online" else "Offline";
     number_value := number w;
     action_button := match activeSessionRef w with
                      | Some _ => HangUpButton
                      | None => CallButton (negb (isConnected w))
                      end;
     keys := keypad;
     log_panel := match logEntries w with
                  | [] => NoEvents "No events yet. Connect to begin."
                  | _ :: _ => LogList (logEntries w)
                  end |}.

(** ** Vocabulary of the further properties *)

(** The session an input announces as an event of its own, and the last one
    announced in a run. *)
Definition announced (i : Input) : option RTCSession :=
  match i with
  | UAFires (ev_newRTCSession session) => Some session
  | _ => None
  end.

Fixpoint last_announced (inputs : list Input) (held : option RTCSession)
  : option RTCSession :=
  match inputs with
  | [] => held
  | i :: rest =>
      last_announced rest
        (match announced i with Some session => Some session | None => held end)
  end.

(** An input that announces no session, neither as an event of its own nor
    inside a reply. *)
Definition announces_nothing (i : Input) : bool :=
  match announced i with
  | Some _ => false
  | None => announces_none (reply_events i)
  end.

(** Calls that act on a running user agent. *)
Definition needs_start (c : EngineCall) : option UA :=
  match c with
  | UAStop ua | UACall ua _ _ => Some ua
  | _ => None
  end.

(** In a record of calls, every stop and every call on a user agent comes
    after the start of that user agent. *)
Definition starts_come_first (calls : list EngineCall) : Prop :=
  forall pre c post ua,
    calls = pre ++ c :: post -> needs_start c = Some ua -> In (UAStart ua) pre.

Definition held_ua_started (w : World) : Prop :=
  (forall ua, uaRef w = Some ua -> In (UAStart ua) (engine w)) /\
  starts_come_first (engine w).

(** The call state a session event leads to. *)
Definition call_state_of_event (e : SessionEvent) : CallState :=
  match e with
  | ev_progress => calling
  | ev_confirmed => in_call
  | ev_ended => terminated
  | ev_failed _ => failed
  end.

Definition is_session_call (c : EngineCall) : bool :=
  match c with
  | SessionOn _ _ | SessionTerminate _ | SessionSendDTMF _ _ => true
  | _ => false
  end.

Definition edits_credentials (i : Input) : bool :=
  match i with
  | TypePassword _ => true
  | _ => false
  end.

Definition concat_strings (l : list string) : string :=
  fold_right String.append "" l.

Definition has_hyphen (s : string) : bool :=
  existsb (Ascii.eqb "-") (list_ascii_of_string s).

(** Where a call made by a handler comes from: it acts on the held session,
    subscribes to a session announced during the input, acts on the held
    user agent, or is one of the calls by which connect builds the
    transport. *)
Definition call_origin (i : Input) (w : World) (c : EngineCall) : Prop :=
  (exists session, activeSessionRef w = Some session /\
     (c = SessionTerminate session \/
      exists digit, c = SessionSendDTMF session digit)) \/
  (exists session ev,
     In (FromUA (ev_newRTCSession session)) (delivered i w) /\
     c = SessionOn session ev) \/
  (exists ua, uaRef w = Some ua /\
     (c = UAStop ua \/
      (isConnected w = true /\ number w <> "" /\
       c = UACall ua (number w) dial_options))) \/
  (exists o, i = ClickConnect o /\ credentials_present w = true /\
     In c (connect_calls w)).

(** ** The page

    What is on screen is the last render.  React renders the component
    again after a handler has changed a state value; writing a reference
    renders nothing.  So the view on screen shows the state values of the
    present world, but the two references as they were at the last render.
    A page is the present world together with the world of the last
    render; [Rerender] is a render, which may happen at any time. *)

Record Page : Type := mkPage {
  world : World;
  rendered : World
}.

Definition initial_page : Page := {| world := initial; rendered := initial |}.

Definition shown (title : option string) (p : Page) : View :=
  render title (rendered p).

Inductive PageInput : Type :=
| Does (i : Input)
| Rerender.

Definition page_step (pi : PageInput) (p : Page) : Page :=
  match pi with
  | Does i => {| world := step i (world p); rendered := rendered p |}
  | Rerender => {| world := world p; rendered := world p |}
  end.

Fixpoint page_run (pis : list PageInput) (p : Page) : Page :=
  match pis with
  | [] => p
  | pi :: rest => page_run rest (page_step pi p)
  end.

Definition status_eqb (a b : ConnectionStatus) : bool :=
  match a, b with
  | disconnected, disconnected | connecting, connecting
  | connected, connected | registered, registered
  | registration_failed, registration_failed => true
  | _, _ => false
  end.

Definition call_state_eqb (a b : CallState) : bool :=
  match a, b with
  | idle, idle | calling, calling | in_call, in_call
  | terminated, terminated | failed, failed => true
  | _, _ => false
  end.

Definition log_eqb (a b : list string) : bool :=
  if list_eq_dec string_dec a b then true else false.

(** The state values of two worlds are the same: no render is due. *)
Definition same_state (w1 w2 : World) : bool :=
  String.eqb (wsUri w1) (wsUri w2) && String.eqb (sipUri w1) (sipUri w2) &&
  String.eqb (displayName w1) (displayName w2) &&
  String.eqb (password w1) (password w2) &&
  status_eqb (status w1) (status w2) &&
  call_state_eqb (callState w1) (callState w2) &&
  String.eqb (number w1) (number w2) &&
  log_eqb (logEntries w1) (logEntries w2).

(** The engine fires the events of a session only once it has announced
    the session: the handlers of the [newRTCSession] handler are installed
    by the announcement, and the callbacks of [dial] belong to a session
    that the engine announces inside [ua.call]. *)
Fixpoint events_ok (held : bool) (events : list EngineEvent) : bool :=
  match events with
  | [] => true
  | FromUA (ev_newRTCSession _) :: rest => events_ok true rest
  | FromUA _ :: rest => events_ok held rest
  | FromSession _ :: rest => held && events_ok held rest
  | FromCall _ :: rest => held && events_ok held rest
  end.

Definition follows_protocol (i : Input) (w : World) : bool :=
  events_ok (match activeSessionRef w with Some _ => true | None => false end)
            (delivered i w).

(** A click needs its button on screen, on a page rendered since the state
    last changed. *)
Definition on_screen (title : option string) (i : Input) (p : Page) : bool :=
  match i with
  | ClickCall _ =>
      same_state (rendered p) (world p) &&
      match action_button (shown title p) with
      | CallButton false => true
      | _ => false
      end
  | ClickHangup _ =>
      same_state (rendered p) (world p) &&
      match action_button (shown title p) with
      | HangUpButton => true
      | _ => false
      end
  | ClickDisconnect _ _ =>
      same_state (rendered p) (world p) &&
      negb (disconnect_disabled (shown title p))
  | _ => true
  end.

Definition possible (title : option string) (pi : PageInput) (p : Page) : bool :=
  match pi with
  | Does i => follows_protocol i (world p) && on_screen title i p
  | Rerender => true
  end.

Fixpoint admissible (title : option string) (pis : list PageInput) (p : Page)
  : bool :=
  match pis with
  | [] => true
  | pi :: rest => possible title pi p && admissible title rest (page_step pi p)
  end.


(** With no session held the call state is idle or terminated. *)
Definition quiet_without_session (w : World) : Prop :=
  activeSessionRef w = None -> callState w = idle \/ callState w = terminated.

Definition page_consistent (p : Page) : Prop :=
  quiet_without_session (world p) /\
  quiet_without_session (rendered p) /\
  (activeSessionRef (rendered p) <> None -> activeSessionRef (world p) <> None) /\
  (uaRef (rendered p) <> None -> uaRef (world p) <> None).

(** A first call placed from the page, with what the engine does. *)
Definition first_call_inputs : list PageInput :=
  [Does (TypePassword "secret"); Rerender;
   Does (ClickConnect Built); Rerender;
   Does (UAFires ev_connected); Rerender;
   Does (TypeNumber "555"); Rerender;
   Does (ClickCall (announces 1)); Rerender;
   Does (CallFires ev_progress); Does (SessionFires ev_progress); Rerender].

(** An inbound session has been announced and nothing rendered since. *)
Definition announced_unrendered_inputs : list PageInput :=
  [Does (TypePassword "secret"); Rerender;
   Does (ClickConnect Built); Rerender;
   Does (UAFires ev_connected); Rerender;
   Does (UAFires (ev_newRTCSession 1))].

(** * Properties *)

(** ** Helper lemmas on slices *)

Lemma slice_string_length : forall n s, String.length (slice_string n s) <= n.
Proof.
  unfold slice_string.
  induction n as [|n IH]; intros s.
  - destruct s; simpl; lia.
  - destruct s as [|c s]; simpl; [lia|].
    specialize (IH s). lia.
Qed.

Lemma slice_string_short : forall n s, String.length s <= n -> slice_string n s = s.
Proof.
  unfold slice_string.
  induction n as [|n IH]; intros s Hs.
  - destruct s; simpl in *; [reflexivity | lia].
  - destruct s as [|c s]; simpl in *; [reflexivity|].
    f_equal. apply IH. lia.
Qed.

Lemma slice_string_app : forall s d, slice_string (String.length s) (s ++ d) = s.
Proof.
  unfold slice_string.
  induction s as [|c s IH]; intros d; simpl.
  - destruct d; reflexivity.
  - f_equal. apply IH.
Qed.

Lemma truthy_false_iff : forall s, truthy s = false <-> s = "".
Proof.
  intros [|c s]; simpl; split; intros H; congruence.
Qed.

Lemma addLog_entries_length : forall m prev,
  List.length (addLog_entries m prev) <= log_capacity.
Proof.
  intros m prev. unfold addLog_entries, slice_list.
  apply firstn_le_length.
Qed.

Lemma addLog_entries_prefix : forall m prev,
  exists dropped, m :: prev = addLog_entries m prev ++ dropped.
Proof.
  intros m prev. exists (skipn log_capacity (m :: prev)).
  unfold addLog_entries, slice_list.
  symmetry. apply firstn_skipn.
Qed.

Lemma calls_since_app : forall w w' cs,
  engine w' = engine w ++ cs -> calls_since w w' = cs.
Proof.
  intros w w' cs H. unfold calls_since. rewrite H.
  rewrite skipn_app, skipn_all, Nat.sub_diag. reflexivity.
Qed.

Lemma firstn_app_firstn : forall (A : Type) (n : nat) (a b : list A),
  firstn n (a ++ firstn n b) = firstn n (a ++ b).
Proof.
  intros A n a b.
  rewrite !firstn_app, firstn_firstn.
  f_equal. f_equal. lia.
Qed.

Lemma append_all_log : forall ms w,
  List.length (logEntries w) <= log_capacity ->
  logEntries (append_all ms w) = firstn log_capacity (rev ms ++ logEntries w).
Proof.
  induction ms as [|m rest IH]; intros w Hw.
  - cbn [append_all rev app]. symmetry. apply firstn_all2. exact Hw.
  - cbn [append_all rev]. rewrite IH.
    + change (logEntries (addLog m w)) with (addLog_entries m (logEntries w)).
      unfold addLog_entries, slice_list.
      rewrite firstn_app_firstn, <- app_assoc. reflexivity.
    + apply addLog_entries_length.
Qed.

(** ** connect, case by case *)

Lemma credentials_present_guard : forall w,
  credentials_present w = true ->
  negb (truthy (wsUri w)) || negb (truthy (sipUri w)) || negb (truthy (password w))
  = false.
Proof.
  intros w. unfold credentials_present.
  destruct (truthy (wsUri w)), (truthy (sipUri w)), (truthy (password w));
    simpl; congruence.
Qed.

Lemma connect_built : forall w,
  credentials_present w = true ->
  connect Built w =
    mkWorld (wsUri w) (sipUri w) (displayName w) (password w) connecting
            (callState w) (number w)
            (addLog_entries "Connecting..." (logEntries w))
            (Some (nextUA w)) (activeSessionRef w)
            (engine w ++ connect_calls w) (S (nextUA w)).
Proof.
  intros w H. unfold connect. rewrite (credentials_present_guard w H).
  destruct w as [ws sip dn pw st cs num lg ua ses eng nxt].
  lazy -[app addLog_entries]. repeat rewrite <- app_assoc. reflexivity.
Qed.

Lemma connect_raised : forall o m w,
  credentials_present w = true ->
  raised o = Some m ->
  connect o w =
    mkWorld (wsUri w) (sipUri w) (displayName w) (password w) disconnected
            (callState w) (number w)
            (addLog_entries (connection_error m) (logEntries w))
            (uaRef w) (activeSessionRef w)
            (engine w ++ calls_before_raise o w)
            (match o with StartRaises _ => S (nextUA w) | _ => nextUA w end).
Proof.
  intros o m w H Hr. unfold connect. rewrite (credentials_present_guard w H).
  destruct w as [ws sip dn pw st cs num lg ua ses eng nxt].
  destruct o; inversion Hr; subst;
    lazy -[app addLog_entries connection_error];
    repeat rewrite <- app_assoc; reflexivity.
Qed.

Lemma connect_without_credentials : forall o w,
  credentials_present w = false ->
  connect o w = addLog missing_credentials_message w.
Proof.
  intros o w H. unfold connect, credentials_present in *.
  destruct (truthy (wsUri w)), (truthy (sipUri w)), (truthy (password w));
    cbn [andb negb orb] in *; try discriminate H; reflexivity.
Qed.

Lemma connect_log_cases : forall o w,
  exists message,
    logEntries (connect o w) = addLog_entries message (logEntries w).
Proof.
  intros o w.
  destruct (credentials_present w) eqn:Hcred.
  - destruct (raised o) as [m|] eqn:Hr.
    + rewrite (connect_raised o m w Hcred Hr). eexists. reflexivity.
    + destruct o; try discriminate Hr.
      rewrite (connect_built w Hcred). eexists. reflexivity.
  - rewrite (connect_without_credentials o w Hcred). eexists. reflexivity.
Qed.

Lemma connect_session_ref : forall o w,
  activeSessionRef (connect o w) = activeSessionRef w.
Proof.
  intros o w.
  destruct (credentials_present w) eqn:Hcred.
  - destruct (raised o) as [m|] eqn:Hr.
    + rewrite (connect_raised o m w Hcred Hr). reflexivity.
    + destruct o; try discriminate Hr.
      rewrite (connect_built w Hcred). reflexivity.
  - rewrite (connect_without_credentials o w Hcred). reflexivity.
Qed.

Lemma connect_ua_ref : forall o w,
  uaRef (connect o w) =
    match o with
    | Built => if credentials_present w then Some (nextUA w) else uaRef w
    | _ => uaRef w
    end.
Proof.
  intros o w.
  destruct (credentials_present w) eqn:Hcred.
  - destruct (raised o) as [m|] eqn:Hr.
    + rewrite (connect_raised o m w Hcred Hr).
      destruct o; try discriminate Hr; reflexivity.
    + destruct o; try discriminate Hr.
      rewrite (connect_built w Hcred). reflexivity.
  - rewrite (connect_without_credentials o w Hcred). destruct o; reflexivity.
Qed.

Lemma connect_password : forall o w, password (connect o w) = password w.
Proof.
  intros o w.
  destruct (credentials_present w) eqn:Hcred.
  - destruct (raised o) as [m|] eqn:Hr.
    + rewrite (connect_raised o m w Hcred Hr). reflexivity.
    + destruct o; try discriminate Hr.
      rewrite (connect_built w Hcred). reflexivity.
  - rewrite (connect_without_credentials o w Hcred). reflexivity.
Qed.

Lemma connect_nextUA : forall o w, nextUA w <= nextUA (connect o w).
Proof.
  intros o w.
  destruct (credentials_present w) eqn:Hcred.
  - destruct (raised o) as [m|] eqn:Hr.
    + rewrite (connect_raised o m w Hcred Hr). cbn [nextUA]. destruct o; lia.
    + destruct o; try discriminate Hr.
      rewrite (connect_built w Hcred). cbn [nextUA]. lia.
  - rewrite (connect_without_credentials o w Hcred). cbn. lia.
Qed.

Lemma connect_callState : forall o w, callState (connect o w) = callState w.
Proof.
  intros o w.
  destruct (credentials_present w) eqn:Hcred.
  - destruct (raised o) as [m|] eqn:Hr.
    + rewrite (connect_raised o m w Hcred Hr). reflexivity.
    + destruct o; try discriminate Hr.
      rewrite (connect_built w Hcred). reflexivity.
  - rewrite (connect_without_credentials o w Hcred). reflexivity.
Qed.

Lemma connect_not_connected : forall o w,
  credentials_present w = true -> isConnected (connect o w) = false.
Proof.
  intros o w Hcred.
  destruct (raised o) as [m|] eqn:Hr.
  - rewrite (connect_raised o m w Hcred Hr). reflexivity.
  - destruct o; try discriminate Hr.
    rewrite (connect_built w Hcred). reflexivity.
Qed.

Lemma credentials_present_intro : forall w,
  wsUri w <> "" -> sipUri w <> "" -> password w <> "" ->
  credentials_present w = true.
Proof.
  intros w H1 H2 H3. unfold credentials_present.
  destruct (wsUri w); [congruence|].
  destruct (sipUri w); [congruence|].
  destruct (password w); [congruence|].
  reflexivity.
Qed.

Lemma connect_ignores_status : forall o st w,
  credentials_present w = true ->
  connect o (setStatus st w) = connect o w.
Proof.
  intros o st w Hcred.
  destruct (raised o) as [m|] eqn:Hr.
  - rewrite (connect_raised o m (setStatus st w) Hcred Hr).
    rewrite (connect_raised o m w Hcred Hr).
    destruct o; reflexivity.
  - destruct o; try discriminate Hr.
    rewrite (connect_built (setStatus st w) Hcred).
    rewrite (connect_built w Hcred). reflexivity.
Qed.

Lemma empty_password_no_credentials : forall w,
  password w = "" -> credentials_present w = false.
Proof.
  intros w H. unfold credentials_present. rewrite H. cbn [truthy].
  apply andb_false_r.
Qed.

(** ** The handlers of events *)

Lemma on_engine_event_world : forall e w,
  on_engine_event e w =
    mkWorld (wsUri w) (sipUri w) (displayName w) (password w)
            (status (on_engine_event e w)) (callState (on_engine_event e w))
            (number w) (logEntries (on_engine_event e w)) (uaRef w)
            (match announcement e with
             | Some session => Some session
             | None => activeSessionRef w
             end)
            (engine w ++ subscriptions_of [e]) (nextUA w).
Proof.
  intros e w.
  destruct w as [ws sip dn pw st cs num lg ua ses eng nxt].
  destruct e as [[| | | |cause|session]|[| | |cause]|[| | |cause]];
    lazy -[app addLog_entries String.append or_unknown];
    repeat rewrite <- app_assoc; try rewrite app_nil_r; reflexivity.
Qed.

Lemma on_engine_event_agrees : forall e w1 w2,
  state_agrees w1 w2 ->
  state_agrees (on_engine_event e w1) (on_engine_event e w2).
Proof.
  intros e w1 w2 (Hs & Hc & Hl).
  destruct w1 as [ws1 sip1 dn1 pw1 st1 cs1 num1 lg1 ua1 ses1 eng1 nxt1].
  destruct w2 as [ws2 sip2 dn2 pw2 st2 cs2 num2 lg2 ua2 ses2 eng2 nxt2].
  cbn [status callState logEntries] in Hs, Hc, Hl. subst st2 cs2 lg2.
  destruct e as [[| | | |cause|session]|[| | |cause]|[| | |cause]];
    repeat split.
Qed.

Lemma fire_app : forall a b w, fire (a ++ b) w = fire b (fire a w).
Proof.
  induction a as [|e a IH]; intros b w.
  - reflexivity.
  - apply (IH b (on_engine_event e w)).
Qed.

Lemma last_session_app : forall a b held,
  last_session (a ++ b) held = last_session b (last_session a held).
Proof.
  induction a as [|e a IH]; intros b held.
  - reflexivity.
  - apply IH.
Qed.

(** The world after the handlers of [es], when they start in a world that
    shows the same state as [w]. *)
Lemma fire_on : forall es w0 w,
  state_agrees w0 w ->
  fire es w0 =
    mkWorld (wsUri w0) (sipUri w0) (displayName w0) (password w0)
            (status (fire es w)) (callState (fire es w))
            (number w0) (logEntries (fire es w)) (uaRef w0)
            (last_session es (activeSessionRef w0))
            (engine w0 ++ subscriptions_of es) (nextUA w0).
Proof.
  induction es as [|e rest IH]; intros w0 w H.
  - destruct H as (Hs & Hc & Hl).
    destruct w0 as [ws sip dn pw st cs num lg ua ses eng nxt].
    cbn [status callState logEntries] in Hs, Hc, Hl. subst st cs lg.
    cbn [subscriptions_of last_session wsUri sipUri displayName
         password number uaRef activeSessionRef engine nextUA].
    rewrite app_nil_r. reflexivity.
  - change (fire (e :: rest) w0) with (fire rest (on_engine_event e w0)).
    rewrite (IH (on_engine_event e w0) (on_engine_event e w)
               (on_engine_event_agrees e w0 w H)).
    rewrite (on_engine_event_world e w0).
    cbn [wsUri sipUri displayName password number uaRef activeSessionRef
         engine nextUA subscriptions_of last_session].
    rewrite app_nil_r, <- app_assoc. reflexivity.
Qed.



Lemma after_call_world : forall c r w,
  after_call c r w =
    mkWorld (wsUri w) (sipUri w) (displayName w) (password w)
            (status (fire (fired r) w)) (callState (fire (fired r) w))
            (number w) (logEntries (fire (fired r) w)) (uaRef w)
            (last_session (fired r) (activeSessionRef w))
            (engine w ++ c :: subscriptions_of (fired r)) (nextUA w).
Proof.
  intros c r w. unfold after_call, andThen.
  rewrite (fire_on (fired r) (call c w) w) by (repeat split).
  cbn [call wsUri sipUri displayName password number uaRef activeSessionRef
       engine nextUA].
  rewrite <- app_assoc. reflexivity.
Qed.

(** ** The world after a handler that calls the engine *)

Lemma after_call_on : forall c r w0 w,
  state_agrees w0 w ->
  after_call c r w0 =
    mkWorld (wsUri w0) (sipUri w0) (displayName w0) (password w0)
            (status (fire (fired r) w)) (callState (fire (fired r) w))
            (number w0) (logEntries (fire (fired r) w)) (uaRef w0)
            (last_session (fired r) (activeSessionRef w0))
            (engine w0 ++ c :: subscriptions_of (fired r)) (nextUA w0).
Proof.
  intros c r w0 w (Hs & Hc & Hl). unfold after_call, andThen.
  rewrite (fire_on (fired r) (call c w0) w) by (repeat split; assumption).
  cbn [call wsUri sipUri displayName password number uaRef activeSessionRef
       engine nextUA].
  rewrite <- app_assoc. reflexivity.
Qed.

Lemma thenStmt_assoc : forall (a b c : Stmt) w,
  ((a >> b) >> c) w = (a >> (b >> c)) w.
Proof.
  intros a b c w. unfold thenStmt.
  destruct (a w) as [[|m] w']; reflexivity.
Qed.

Lemma invoke_result : forall c r w,
  invoke c r w =
    (match thrown r with Some m => Throw m | None => Normal end,
     after_call c r w).
Proof.
  intros c r w. unfold invoke, thenStmt, run_action, raise, skip.
  destruct (thrown r); reflexivity.
Qed.

(** The world in which the cleanup calls end, whether or not they raise. *)
Lemma cleanup_result : forall rt rs w,
  snd ((terminate_active rt >> stop_ua rs) w) =
    mkWorld (wsUri w) (sipUri w) (displayName w) (password w)
            (status (fire (cleanup_events rt rs w) w))
            (callState (fire (cleanup_events rt rs w) w))
            (number w)
            (logEntries (fire (cleanup_events rt rs w) w))
            (uaRef w)
            (last_session (cleanup_events rt rs w) (activeSessionRef w))
            (engine w ++ cleanup_calls rt rs w) (nextUA w) /\
  fst ((terminate_active rt >> stop_ua rs) w) =
    (if cleanup_completes rt rs w then Normal
     else match terminate_raises rt w, thrown rt, thrown rs with
          | true, Some m, _ => Throw m
          | _, _, Some m => Throw m
          | _, _, None => Normal
          end).
Proof.
  intros rt rs w.
  unfold thenStmt, terminate_active, stop_ua, cleanup_events, cleanup_calls,
    cleanup_completes, terminate_raises, stop_raises.
  destruct (activeSessionRef w) as [s|] eqn:Hs.
  - rewrite invoke_result.
    destruct (thrown rt) as [m|] eqn:Ht.
    + cbn [fst snd negb andb]. rewrite app_nil_r, app_nil_r.
      rewrite after_call_world, Hs. split; reflexivity.
    + assert (Hu : uaRef (after_call (SessionTerminate s) rt w) = uaRef w)
        by (rewrite after_call_world; reflexivity).
      rewrite Hu.
      destruct (uaRef w) as [ua|] eqn:Hua.
      * rewrite invoke_result. cbn [fst snd negb andb].
        rewrite (after_call_on (UAStop ua) rs
                   (after_call (SessionTerminate s) rt w) (fire (fired rt) w))
          by (rewrite after_call_world; repeat split).
        rewrite after_call_world, fire_app, last_session_app, Hs, Hua.
        cbn [wsUri sipUri displayName password number uaRef activeSessionRef
             engine nextUA].
        rewrite <- app_assoc.
        split; [reflexivity | destruct (thrown rs); reflexivity].
      * cbn [fst snd negb andb]. rewrite app_nil_r, app_nil_r.
        rewrite after_call_world, Hs, Hua. split; reflexivity.
  - cbn [fst snd negb andb app].
    destruct (uaRef w) as [ua|] eqn:Hua.
    + rewrite invoke_result. cbn [fst snd].
      rewrite after_call_world, Hs, Hua.
      split; [reflexivity | destruct (thrown rs); reflexivity].
    + cbn [fst snd fire skip last_session]. rewrite app_nil_r.
      split; [|reflexivity].
      destruct w as [ws sip dn pw st cs num lg ua ses eng nxt].
      cbn in Hs, Hua. subst ua ses. reflexivity.
Qed.

Lemma unmount_world : forall rt rs w,
  unmount rt rs w =
    mkWorld (wsUri w) (sipUri w) (displayName w) (password w)
            (status (fire (cleanup_events rt rs w) w))
            (callState (fire (cleanup_events rt rs w) w))
            (number w)
            (logEntries (fire (cleanup_events rt rs w) w))
            (uaRef w)
            (last_session (cleanup_events rt rs w) (activeSessionRef w))
            (engine w ++ cleanup_calls rt rs w) (nextUA w).
Proof.
  intros rt rs w. unfold unmount, uncaught.
  apply (proj1 (cleanup_result rt rs w)).
Qed.

Lemma disconnect_world : forall rt rs w,
  disconnect rt rs w =
    mkWorld (wsUri w) (sipUri w) (displayName w) (password w)
            (if cleanup_completes rt rs w then disconnected
             else status (fire (cleanup_events rt rs w) w))
            (if cleanup_completes rt rs w then terminated
             else callState (fire (cleanup_events rt rs w) w))
            (number w)
            (if cleanup_completes rt rs w
             then addLog_entries disconnect_message
                    (logEntries (fire (cleanup_events rt rs w) w))
             else logEntries (fire (cleanup_events rt rs w) w))
            (uaRef w)
            (last_session (cleanup_events rt rs w) (activeSessionRef w))
            (engine w ++ cleanup_calls rt rs w) (nextUA w).
Proof.
  intros rt rs w. unfold disconnect, uncaught.
  rewrite <- thenStmt_assoc.
  destruct (cleanup_result rt rs w) as [Hw Hc].
  unfold thenStmt at 1.
  destruct ((terminate_active rt >> stop_ua rs) w) as [c w'] eqn:Hr.
  cbn [fst snd] in Hw, Hc. subst w'.
  destruct (cleanup_completes rt rs w) eqn:Hcompl.
  - subst c. reflexivity.
  - unfold cleanup_completes in Hcompl.
    destruct (terminate_raises rt w) eqn:Htr.
    + unfold terminate_raises in Htr.
      destruct (activeSessionRef w); [|discriminate Htr].
      destruct (thrown rt); [|discriminate Htr].
      subst c. reflexivity.
    + cbn [negb andb] in Hcompl. apply negb_false_iff in Hcompl.
      unfold stop_raises in Hcompl.
      destruct (uaRef w); [|discriminate Hcompl].
      destruct (thrown rs); [|discriminate Hcompl].
      destruct (thrown rt); subst c; reflexivity.
Qed.

Lemma hangup_world : forall r w session,
  activeSessionRef w = Some session ->
  hangup r w =
    mkWorld (wsUri w) (sipUri w) (displayName w) (password w)
            (status (fire (fired r) w))
            (match thrown r with
             | None => terminated
             | Some _ => callState (fire (fired r) w)
             end)
            (number w)
            (match thrown r with
             | None => addLog_entries "Call terminated."
                         (logEntries (fire (fired r) w))
             | Some _ => logEntries (fire (fired r) w)
             end)
            (uaRef w)
            (last_session (fired r) (Some session))
            (engine w ++ SessionTerminate session :: subscriptions_of (fired r))
            (nextUA w).
Proof.
  intros r w session Hs. unfold hangup. rewrite Hs.
  unfold uncaught, thenStmt. rewrite invoke_result, after_call_world, Hs.
  destruct (thrown r); reflexivity.
Qed.

Lemma hangup_none : forall r w, activeSessionRef w = None -> hangup r w = w.
Proof.
  intros r w Hs. unfold hangup. rewrite Hs. reflexivity.
Qed.

Lemma dial_reaches_engine_true : forall w,
  dial_reaches_engine w = true ->
  exists ua, uaRef w = Some ua /\ isConnected w = true /\ truthy (number w) = true.
Proof.
  intros w H. unfold dial_reaches_engine in H.
  destruct (uaRef w) as [ua|]; [|discriminate H].
  apply andb_prop in H. exists ua. tauto.
Qed.

Lemma dial_world : forall r w ua,
  uaRef w = Some ua -> isConnected w = true -> truthy (number w) = true ->
  dial r w =
    mkWorld (wsUri w) (sipUri w) (displayName w) (password w)
            (status (fire (fired r) w)) (callState (fire (fired r) w))
            (number w)
            (match thrown r with
             | None => addLog_entries ("Dialing " ++ number w ++ "...")
                         (logEntries (fire (fired r) w))
             | Some _ => logEntries (fire (fired r) w)
             end)
            (uaRef w)
            (last_session (fired r) (activeSessionRef w))
            (engine w ++ UACall ua (number w) dial_options
                         :: subscriptions_of (fired r))
            (nextUA w).
Proof.
  intros r w ua Hua Hc Hn. unfold dial. rewrite Hua, Hc, Hn. cbn [negb].
  unfold uncaught, thenStmt. rewrite invoke_result, after_call_world, Hua.
  destruct (thrown r); reflexivity.
Qed.

Lemma dial_rejected : forall r w,
  dial_reaches_engine w = false ->
  exists message, dial r w = addLog message w.
Proof.
  intros r w H. unfold dial_reaches_engine in H. unfold dial.
  destruct (uaRef w); [|eexists; reflexivity].
  destruct (isConnected w); [|eexists; reflexivity].
  cbn [andb] in H. rewrite H. eexists. reflexivity.
Qed.

Lemma on_engine_event_log : forall e w,
  logEntries (on_engine_event e w) = logEntries w \/
  exists message,
    logEntries (on_engine_event e w) = addLog_entries message (logEntries w).
Proof.
  intros e w.
  destruct e as [[| | | |cause|session]|[| | |cause]|[| | |cause]];
    try (left; reflexivity); right; eexists; reflexivity.
Qed.

Lemma fire_log_bounded : forall es w,
  List.length (logEntries w) <= log_capacity ->
  List.length (logEntries (fire es w)) <= log_capacity.
Proof.
  induction es as [|e rest IH]; intros w Hw.
  - exact Hw.
  - apply (IH (on_engine_event e w)).
    destruct (on_engine_event_log e w) as [Hsame | (m & Hm)].
    + rewrite Hsame. exact Hw.
    + rewrite Hm. apply addLog_entries_length.
Qed.

Lemma fire_log_shape : forall es w,
  List.length (logEntries w) <= log_capacity ->
  exists newest_first,
    List.length newest_first <= List.length es /\
    logEntries (fire es w) =
      firstn log_capacity (newest_first ++ logEntries w).
Proof.
  induction es as [|e rest IH]; intros w Hw.
  - exists []. split; [cbn; lia|].
    cbn [fire skip app]. symmetry. apply firstn_all2. exact Hw.
  - change (fire (e :: rest) w) with (fire rest (on_engine_event e w)).
    destruct (on_engine_event_log e w) as [Hsame | (m & Hm)].
    + destruct (IH (on_engine_event e w)) as (ms & Hlen & Hlog).
      { rewrite Hsame. exact Hw. }
      exists ms. split; [cbn [List.length]; lia|].
      rewrite Hlog, Hsame. reflexivity.
    + destruct (IH (on_engine_event e w)) as (ms & Hlen & Hlog).
      { rewrite Hm. apply addLog_entries_length. }
      exists (ms ++ [m]). split.
      * rewrite length_app. cbn [List.length]. lia.
      * rewrite Hlog, Hm. unfold addLog_entries, slice_list.
        rewrite firstn_app_firstn, <- app_assoc. reflexivity.
Qed.

(** One more entry in front of a log of the shape above. *)
Lemma log_shape_cons : forall m ms l,
  addLog_entries m (firstn log_capacity (ms ++ l)) =
    firstn log_capacity ((m :: ms) ++ l).
Proof.
  intros m ms l. unfold addLog_entries, slice_list.
  change (m :: firstn log_capacity (ms ++ l))
    with ([m] ++ firstn log_capacity (ms ++ l)).
  rewrite firstn_app_firstn. reflexivity.
Qed.

Lemma delivered_within_replies : forall i w,
  List.length (delivered i w) <= handlers_run i.
Proof.
  intros i w. unfold handlers_run.
  destruct i as [v|v|v|v|v| |o|rt rs|r|r|digit|e|e|e];
    cbn [delivered reply_events List.length]; try lia.
  - unfold cleanup_events. rewrite !length_app.
    destruct (activeSessionRef w); destruct (terminate_raises rt w);
      destruct (uaRef w); cbn [List.length]; lia.
  - destruct (dial_reaches_engine w); cbn [List.length]; lia.
  - destruct (activeSessionRef w); cbn [List.length]; lia.
Qed.

Lemma delivered_within_reply_events : forall i w,
  (forall e, i <> UAFires e) -> (forall e, i <> SessionFires e) ->
  (forall e, i <> CallFires e) ->
  List.length (delivered i w) <= List.length (reply_events i).
Proof.
  intros i w H1 H2 H3.
  destruct i as [v|v|v|v|v| |o|rt rs|r|r|digit|e|e|e];
    cbn [delivered reply_events List.length]; try lia.
  - unfold cleanup_events. rewrite !length_app.
    destruct (activeSessionRef w); destruct (terminate_raises rt w);
      destruct (uaRef w); cbn [List.length]; lia.
  - destruct (dial_reaches_engine w); cbn [List.length]; lia.
  - destruct (activeSessionRef w); cbn [List.length]; lia.
  - exfalso. apply (H1 e). reflexivity.
  - exfalso. apply (H2 e). reflexivity.
  - exfalso. apply (H3 e). reflexivity.
Qed.

(** The log after an input: the log left by the events delivered during
    the input, with at most one more entry in front, which the handler of
    a click adds. *)
Lemma step_log_via_events : forall i w,
  logEntries (step i w) = logEntries (fire (delivered i w) w) \/
  (exists message,
     logEntries (step i w) =
       addLog_entries message (logEntries (fire (delivered i w) w))) /\
  List.length (delivered i w) <= List.length (reply_events i).
Proof.
  intros i w.
  destruct i as [v|v|v|v|v| |o|rt rs|r|r|digit|e|e|e];
    try (left; reflexivity).
  - right. split; [apply connect_log_cases | cbn; lia].
  - cbn [step]. rewrite disconnect_world. cbn [logEntries].
    destruct (cleanup_completes rt rs w); [|left; reflexivity].
    right. split; [eexists; reflexivity|].
    apply delivered_within_reply_events; intros e; discriminate.
  - cbn [step].
    destruct (dial_reaches_engine w) eqn:Hd.
    + destruct (dial_reaches_engine_true w Hd) as (ua & Hua & Hc & Hn).
      rewrite (dial_world r w ua Hua Hc Hn). cbn [logEntries delivered].
      rewrite Hd.
      destruct (thrown r); [left; reflexivity|].
      right. split; [eexists; reflexivity | cbn; lia].
    + destruct (dial_rejected r w Hd) as (m & Hm). rewrite Hm.
      right. cbn [delivered]. rewrite Hd.
      split; [eexists; reflexivity | cbn; lia].
  - cbn [step].
    destruct (activeSessionRef w) as [s|] eqn:Hs.
    + rewrite (hangup_world r w s Hs). cbn [logEntries delivered]. rewrite Hs.
      destruct (thrown r); [left; reflexivity|].
      right. split; [eexists; reflexivity | cbn; lia].
    + rewrite (hangup_none r w Hs). left. cbn [delivered]. rewrite Hs.
      reflexivity.
  - left. cbn [step delivered fire skip]. unfold handleKeypad, andThen, send_dtmf.
    cbn [activeSessionRef setNumber]. destruct (activeSessionRef w); reflexivity.
Qed.

Lemma step_log_bounded : forall i w,
  List.length (logEntries w) <= log_capacity ->
  List.length (logEntries (step i w)) <= log_capacity.
Proof.
  intros i w Hw.
  destruct (step_log_via_events i w) as [Hsame | [(m & Hm) _]].
  - rewrite Hsame. apply fire_log_bounded. exact Hw.
  - rewrite Hm. apply addLog_entries_length.
Qed.

Lemma run_log_bounded : forall inputs w,
  List.length (logEntries w) <= log_capacity ->
  List.length (logEntries (run inputs w)) <= log_capacity.
Proof.
  induction inputs as [|i rest IH]; intros w Hw; simpl.
  - exact Hw.
  - apply IH. apply step_log_bounded. exact Hw.
Qed.

(** ** What each input writes and asks *)

Lemma ua_newRTCSession_world : forall session w,
  ua_newRTCSession session w =
    mkWorld (wsUri w) (sipUri w) (displayName w) (password w) (status w)
            (callState w) (number w) (logEntries w) (uaRef w) (Some session)
            (engine w ++ session_subscriptions session) (nextUA w).
Proof.
  intros session w.
  destruct w as [ws sip dn pw st cs num lg ua ses eng nxt].
  lazy -[app]. repeat rewrite <- app_assoc. reflexivity.
Qed.

Lemma append_empty_r : forall s : string, (s ++ "")%string = s.
Proof.
  induction s as [|c s IH]; simpl; [reflexivity | rewrite IH; reflexivity].
Qed.

Lemma append_assoc : forall a b c : string,
  ((a ++ b) ++ c)%string = (a ++ (b ++ c))%string.
Proof.
  induction a as [|ch a IH]; intros b c; simpl; [reflexivity|].
  rewrite IH. reflexivity.
Qed.

Lemma slice_string_app_slice : forall n a b,
  slice_string n (slice_string n a ++ b) = slice_string n (a ++ b).
Proof.
  unfold slice_string.
  induction n as [|n IH]; intros a b.
  - destruct (substring 0 0 a ++ b)%string, (a ++ b)%string; reflexivity.
  - destruct a as [|c a]; simpl; [reflexivity|].
    rewrite IH. reflexivity.
Qed.

Lemma handleKeypad_world : forall digit w,
  handleKeypad digit w =
    mkWorld (wsUri w) (sipUri w) (displayName w) (password w) (status w)
            (callState w)
            (slice_string number_capacity (number w ++ digit))
            (logEntries w) (uaRef w) (activeSessionRef w)
            (engine w ++ match activeSessionRef w with
                         | Some session => [SessionSendDTMF session digit]
                         | None => []
                         end)
            (nextUA w).
Proof.
  intros digit w.
  destruct w as [ws sip dn pw st cs num lg ua ses eng nxt].
  destruct ses; lazy -[app slice_string String.append];
    try rewrite app_nil_r; reflexivity.
Qed.

(** The only input that writes the transport handle is a connect that the
    engine lets through. *)
Lemma step_ua_ref : forall i w,
  uaRef (step i w) =
    match i with
    | ClickConnect Built =>
        if credentials_present w then Some (nextUA w) else uaRef w
    | _ => uaRef w
    end.
Proof.
  intros i w.
  destruct i as [v|v|v|v|v| |o|rt rs|r|r|digit|e|e|e];
    try reflexivity.
  - cbn [step]. rewrite connect_ua_ref. destruct o; reflexivity.
  - cbn [step]. rewrite disconnect_world. reflexivity.
  - cbn [step]. destruct (dial_reaches_engine w) eqn:Hd.
    + destruct (dial_reaches_engine_true w Hd) as (ua & Hua & Hc & Hn).
      rewrite (dial_world r w ua Hua Hc Hn). reflexivity.
    + destruct (dial_rejected r w Hd) as (m & Hm). rewrite Hm. reflexivity.
  - cbn [step]. destruct (activeSessionRef w) as [s|] eqn:Hs.
    + rewrite (hangup_world r w s Hs). reflexivity.
    + rewrite (hangup_none r w Hs). reflexivity.
  - cbn [step]. rewrite handleKeypad_world. reflexivity.
  - cbn [step]. change (on_ua_event e w) with (on_engine_event (FromUA e) w).
    rewrite on_engine_event_world. reflexivity.
  - cbn [step]. change (on_session_event e w) with (on_engine_event (FromSession e) w).
    rewrite on_engine_event_world. reflexivity.
  - cbn [step]. change (on_call_event e w) with (on_engine_event (FromCall e) w).
    rewrite on_engine_event_world. reflexivity.
Qed.

Lemma step_nextUA : forall i w, nextUA w <= nextUA (step i w).
Proof.
  intros i w.
  destruct i as [v|v|v|v|v| |o|rt rs|r|r|digit|e|e|e];
    try (cbn; lia).
  - apply connect_nextUA.
  - cbn [step]. rewrite disconnect_world. cbn [nextUA]. lia.
  - cbn [step]. destruct (dial_reaches_engine w) eqn:Hd.
    + destruct (dial_reaches_engine_true w Hd) as (ua & Hua & Hc & Hn).
      rewrite (dial_world r w ua Hua Hc Hn). cbn [nextUA]. lia.
    + destruct (dial_rejected r w Hd) as (m & Hm). rewrite Hm. cbn. lia.
  - cbn [step]. destruct (activeSessionRef w) as [s|] eqn:Hs.
    + rewrite (hangup_world r w s Hs). cbn [nextUA]. lia.
    + rewrite (hangup_none r w Hs). lia.
  - cbn [step]. rewrite handleKeypad_world. cbn [nextUA]. lia.
  - cbn [step]. change (on_ua_event e w) with (on_engine_event (FromUA e) w).
    rewrite on_engine_event_world. cbn [nextUA]. lia.
  - cbn [step]. change (on_session_event e w) with (on_engine_event (FromSession e) w).
    rewrite on_engine_event_world. cbn [nextUA]. lia.
  - cbn [step]. change (on_call_event e w) with (on_engine_event (FromCall e) w).
    rewrite on_engine_event_world. cbn [nextUA]. lia.
Qed.

Lemma step_password : forall i w,
  edits_credentials i = false -> password (step i w) = password w.
Proof.
  intros i w Hi.
  destruct i as [v|v|v|v|v| |o|rt rs|r|r|digit|e|e|e];
    try discriminate Hi; try reflexivity.
  - apply connect_password.
  - cbn [step]. rewrite disconnect_world. reflexivity.
  - cbn [step]. destruct (dial_reaches_engine w) eqn:Hd.
    + destruct (dial_reaches_engine_true w Hd) as (ua & Hua & Hc & Hn).
      rewrite (dial_world r w ua Hua Hc Hn). reflexivity.
    + destruct (dial_rejected r w Hd) as (m & Hm). rewrite Hm. reflexivity.
  - cbn [step]. destruct (activeSessionRef w) as [s|] eqn:Hs.
    + rewrite (hangup_world r w s Hs). reflexivity.
    + rewrite (hangup_none r w Hs). reflexivity.
  - cbn [step]. rewrite handleKeypad_world. reflexivity.
  - cbn [step]. change (on_ua_event e w) with (on_engine_event (FromUA e) w).
    rewrite on_engine_event_world. reflexivity.
  - cbn [step]. change (on_session_event e w) with (on_engine_event (FromSession e) w).
    rewrite on_engine_event_world. reflexivity.
  - cbn [step]. change (on_call_event e w) with (on_engine_event (FromCall e) w).
    rewrite on_engine_event_world. reflexivity.
Qed.

(** The session handle is written only by the handlers of the events
    delivered during the input. *)
Lemma step_session_ref : forall i w,
  activeSessionRef (step i w) =
    last_session (delivered i w) (activeSessionRef w).
Proof.
  intros i w.
  destruct i as [v|v|v|v|v| |o|rt rs|r|r|digit|e|e|e];
    try reflexivity.
  - apply connect_session_ref.
  - cbn [step delivered]. rewrite disconnect_world. reflexivity.
  - cbn [step delivered]. destruct (dial_reaches_engine w) eqn:Hd.
    + destruct (dial_reaches_engine_true w Hd) as (ua & Hua & Hc & Hn).
      rewrite (dial_world r w ua Hua Hc Hn). reflexivity.
    + destruct (dial_rejected r w Hd) as (m & Hm). rewrite Hm. reflexivity.
  - cbn [step delivered]. destruct (activeSessionRef w) as [s|] eqn:Hs.
    + rewrite (hangup_world r w s Hs). reflexivity.
    + rewrite (hangup_none r w Hs). exact Hs.
  - cbn [step delivered]. rewrite handleKeypad_world. reflexivity.
  - cbn [step delivered]. change (on_ua_event e w) with (on_engine_event (FromUA e) w).
    rewrite on_engine_event_world. reflexivity.
  - cbn [step delivered]. change (on_session_event e w) with (on_engine_event (FromSession e) w).
    rewrite on_engine_event_world. reflexivity.
  - cbn [step delivered]. change (on_call_event e w) with (on_engine_event (FromCall e) w).
    rewrite on_engine_event_world. reflexivity.
Qed.

Lemma last_session_held : forall es held,
  held <> None -> last_session es held <> None.
Proof.
  induction es as [|e rest IH]; intros held H.
  - exact H.
  - cbn [last_session]. apply IH. destruct (announcement e); [discriminate | exact H].
Qed.

Lemma last_session_quiet : forall es held,
  announces_none es = true -> last_session es held = held.
Proof.
  induction es as [|e rest IH]; intros held H.
  - reflexivity.
  - cbn [announces_none forallb] in H. apply andb_prop in H. destruct H as [He Hrest].
    cbn [last_session]. destruct (announcement e); [discriminate He|].
    apply IH. exact Hrest.
Qed.

Lemma subscriptions_origin : forall es c,
  In c (subscriptions_of es) ->
  exists session ev,
    In (FromUA (ev_newRTCSession session)) es /\ c = SessionOn session ev.
Proof.
  induction es as [|e rest IH]; intros c Hin.
  - destruct Hin.
  - cbn [subscriptions_of] in Hin. apply in_app_or in Hin.
    destruct Hin as [Hin | Hin].
    + destruct e as [[| | | |cause|session]|e|e];
        cbn [announcement] in Hin; try contradiction.
      unfold session_subscriptions in Hin. simpl in Hin.
      destruct Hin as [Hin | [Hin | [Hin | [Hin | []]]]]; subst c;
        exists session; eexists; (split; [left; reflexivity | reflexivity]).
    + destruct (IH c Hin) as (session & ev & Hs & Hc).
      exists session, ev. split; [right; exact Hs | exact Hc].
Qed.

Lemma step_calls_cases : forall i w,
  exists cs, engine (step i w) = engine w ++ cs /\
             forall c, In c cs -> call_origin i w c.
Proof.
  intros i w.
  assert (Hnone : forall w', engine w' = engine w ->
            exists cs, engine w' = engine w ++ cs /\
                       forall c, In c cs -> call_origin i w c).
  { intros w' H. exists []. split; [rewrite app_nil_r; exact H | intros c []]. }
  assert (Hsubs : forall es c, (forall e, In e es -> In e (delivered i w)) ->
            In c (subscriptions_of es) -> call_origin i w c).
  { intros es c Hes Hin. right. left.
    destruct (subscriptions_origin es c Hin) as (s & ev & Hs & Hc).
    exists s, ev. split; [apply Hes; exact Hs | exact Hc]. }
  destruct i as [v|v|v|v|v| |o|rt rs|r|r|digit|e|e|e];
    try (apply Hnone; reflexivity).
  - (* connect *)
    cbn [step].
    destruct (credentials_present w) eqn:Hcred.
    + destruct (raised o) as [m|] eqn:Hr.
      * rewrite (connect_raised o m w Hcred Hr).
        exists (calls_before_raise o w). split; [reflexivity|].
        intros c Hin. right. right. right.
        exists o. split; [reflexivity|]. split; [exact Hcred|].
        destruct o; try discriminate Hr; cbn [calls_before_raise] in Hin.
        -- destruct Hin as [Hin | []]. subst c. left. reflexivity.
        -- destruct Hin as [Hin | [Hin | []]]; subst c;
             [left | right; left]; reflexivity.
        -- exact Hin.
      * destruct o; try discriminate Hr.
        rewrite (connect_built w Hcred).
        exists (connect_calls w). split; [reflexivity|].
        intros c Hin. right. right. right.
        exists Built. split; [reflexivity|]. split; [exact Hcred | exact Hin].
    + rewrite (connect_without_credentials o w Hcred).
      apply Hnone. reflexivity.
  - (* disconnect *)
    cbn [step]. rewrite disconnect_world. cbn [engine].
    exists (cleanup_calls rt rs w). split; [reflexivity|].
    intros c Hin. unfold cleanup_calls in Hin.
    apply in_app_or in Hin. destruct Hin as [Hin | Hin].
    + destruct (activeSessionRef w) as [s|] eqn:Hs; [|destruct Hin].
      destruct Hin as [Hin | Hin].
      * subst c. left. exists s. split; [exact Hs | left; reflexivity].
      * apply (Hsubs (fired rt)); [|exact Hin].
        intros e He. cbn [delivered]. unfold cleanup_events. rewrite Hs.
        apply in_or_app. left. exact He.
    + destruct (terminate_raises rt w) eqn:Htr; [destruct Hin|].
      destruct (uaRef w) as [ua|] eqn:Hua; [|destruct Hin].
      destruct Hin as [Hin | Hin].
      * subst c. right. right. left. exists ua.
        split; [exact Hua | left; reflexivity].
      * apply (Hsubs (fired rs)); [|exact Hin].
        intros e He. cbn [delivered]. unfold cleanup_events. rewrite Htr, Hua.
        apply in_or_app. right. exact He.
  - (* dial *)
    cbn [step]. destruct (dial_reaches_engine w) eqn:Hd.
    + destruct (dial_reaches_engine_true w Hd) as (ua & Hua & Hc & Hn).
      rewrite (dial_world r w ua Hua Hc Hn). cbn [engine].
      eexists. split; [reflexivity|].
      intros c [Hin | Hin].
      * subst c. right. right. left. exists ua. split; [exact Hua|].
        right. split; [exact Hc|]. split; [|reflexivity].
        intros H. rewrite H in Hn. discriminate Hn.
      * apply (Hsubs (fired r)); [|exact Hin].
        intros e He. cbn [delivered]. rewrite Hd. exact He.
    + destruct (dial_rejected r w Hd) as (m & Hm). rewrite Hm.
      apply Hnone. reflexivity.
  - (* hangup *)
    cbn [step]. destruct (activeSessionRef w) as [s|] eqn:Hs.
    + rewrite (hangup_world r w s Hs). cbn [engine].
      eexists. split; [reflexivity|].
      intros c [Hin | Hin].
      * subst c. left. exists s. split; [exact Hs | left; reflexivity].
      * apply (Hsubs (fired r)); [|exact Hin].
        intros e He. cbn [delivered]. rewrite Hs. exact He.
    + rewrite (hangup_none r w Hs). apply Hnone. reflexivity.
  - (* keypad *)
    cbn [step]. rewrite handleKeypad_world. cbn [engine].
    eexists. split; [reflexivity|].
    intros c Hin. destruct (activeSessionRef w) as [s|] eqn:Hs; [|destruct Hin].
    destruct Hin as [Hin | []]. subst c.
    left. exists s. split; [exact Hs | right; exists digit; reflexivity].
  - (* events *)
    cbn [step]. change (on_ua_event e w) with (on_engine_event (FromUA e) w).
    rewrite on_engine_event_world. cbn [engine].
    eexists. split; [reflexivity|].
    intros c Hin. apply (Hsubs [FromUA e]); [|exact Hin].
    intros e' He'. exact He'.
  - cbn [step]. change (on_session_event e w) with (on_engine_event (FromSession e) w).
    rewrite on_engine_event_world. cbn [engine].
    eexists. split; [reflexivity|]. intros c [].
  - cbn [step]. change (on_call_event e w) with (on_engine_event (FromCall e) w).
    rewrite on_engine_event_world. cbn [engine].
    eexists. split; [reflexivity|]. intros c [].
Qed.

(** ** Every user agent the component knows of has been created *)

Lemma handles_created_extend : forall w w' cs,
  handles_created w ->
  nextUA w <= nextUA w' ->
  engine w' = engine w ++ cs ->
  (forall c ua, In c cs -> ua_of_call c = Some ua -> ua < nextUA w') ->
  (forall ua, uaRef w' = Some ua -> ua < nextUA w') ->
  handles_created w'.
Proof.
  intros w w' cs [Href Heng] Hle Hcs Hnew Hua. split.
  - exact Hua.
  - intros c ua Hin Hc. rewrite Hcs in Hin.
    apply in_app_or in Hin. destruct Hin as [Hin | Hin].
    + specialize (Heng c ua Hin Hc). lia.
    + eapply Hnew; eassumption.
Qed.

Lemma connect_calls_created : forall w c ua,
  In c (connect_calls w) -> ua_of_call c = Some ua -> ua < S (nextUA w).
Proof.
  intros w c ua Hin Hc. unfold connect_calls in Hin. simpl in Hin.
  repeat (destruct Hin as [Hin | Hin];
          [subst c; simpl in Hc; inversion Hc; subst; lia|]).
  contradiction.
Qed.

Lemma connect_handles_created : forall o w,
  handles_created w -> handles_created (connect o w).
Proof.
  intros o w Hw.
  destruct (credentials_present w) eqn:Hcred.
  - destruct (raised o) as [m|] eqn:Hr.
    + rewrite (connect_raised o m w Hcred Hr).
      eapply handles_created_extend with (cs := calls_before_raise o w);
        [exact Hw | | reflexivity | |].
      * destruct o; cbn [nextUA]; lia.
      * intros c ua Hin Hc. cbn [nextUA].
        destruct o; try discriminate Hr; cbn [calls_before_raise] in Hin.
        -- simpl in Hin. destruct Hin as [Hin | []]. subst c. discriminate Hc.
        -- simpl in Hin. destruct Hin as [Hin | [Hin | []]]; subst c; discriminate Hc.
        -- eapply connect_calls_created; eassumption.
      * intros ua Hua. cbn [uaRef nextUA] in *.
        destruct Hw as [Href _]. specialize (Href ua Hua).
        destruct o; lia.
    + destruct o; try discriminate Hr.
      rewrite (connect_built w Hcred).
      eapply handles_created_extend with (cs := connect_calls w);
        [exact Hw | | reflexivity | |]; cbn [nextUA uaRef].
      * lia.
      * apply connect_calls_created.
      * intros ua Hua. inversion Hua. lia.
  - rewrite (connect_without_credentials o w Hcred).
    eapply handles_created_extend with (cs := []);
      [exact Hw | | | |]; cbn [nextUA uaRef engine addLog setLogEntries].
    + lia.
    + symmetry. apply app_nil_r.
    + intros c ua [].
    + apply Hw.
Qed.

Lemma step_handles_created : forall i w,
  handles_created w -> handles_created (step i w).
Proof.
  intros i w Hw.
  destruct (step_calls_cases i w) as (cs & Hcs & Horigin).
  assert (Hconn : forall o, i = ClickConnect o -> handles_created (step i w)).
  { intros o Hi. subst i. apply connect_handles_created. exact Hw. }
  assert (Hother : (forall o, i <> ClickConnect o) -> handles_created (step i w)).
  { intros Hi.
    apply (handles_created_extend w (step i w) cs Hw (step_nextUA i w) Hcs).
    - intros c ua Hin Hc. pose proof (step_nextUA i w) as Hle.
      destruct (Horigin c Hin) as [Hheld | [Hnew | [Hua | Hcn]]].
      + destruct Hheld as (s & _ & [Hc' | (d & Hc')]); subst c; discriminate Hc.
      + destruct Hnew as (s & ev & _ & Hc'). subst c. discriminate Hc.
      + destruct Hua as (ua' & Hua & [Hc' | (_ & _ & Hc')]); subst c;
          inversion Hc; subst ua';
          destruct Hw as [Href _]; specialize (Href ua Hua); lia.
      + destruct Hcn as (o & Ho & _). exfalso. apply (Hi o Ho).
    - intros ua Hua. pose proof (step_nextUA i w) as Hle.
      rewrite step_ua_ref in Hua.
      assert (Hsame : uaRef w = Some ua).
      { destruct i as [v|v|v|v|v| |o|rt rs|r|r|digit|e|e|e]; try exact Hua.
        exfalso. apply (Hi o). reflexivity. }
      destruct Hw as [Href _]. specialize (Href ua Hsame). lia. }
  destruct i as [v|v|v|v|v| |o|rt rs|r|r|digit|e|e|e];
    try (apply Hother; intros o; discriminate).
  apply (Hconn o). reflexivity.
Qed.

Lemma initial_handles_created : handles_created initial.
Proof.
  split.
  - intros ua H. discriminate H.
  - intros c ua [].
Qed.

Lemma run_handles_created : forall inputs w,
  handles_created w -> handles_created (run inputs w).
Proof.
  induction inputs as [|i rest IH]; intros w Hw; simpl.
  - exact Hw.
  - apply IH. apply step_handles_created. exact Hw.
Qed.

(** * The claims *)

(** ** The activity log *)

(** C6.  Whatever messages are appended, the activity log holds at most 20
    entries and they are the most recent ones, newest first; after 25
    appends it is the last 20 of them, newest first.  An append puts the
    message in front and keeps the older entries as they were, dropping the
    ones past the capacity.  No run of the component makes the log longer
    than 20 entries. *)
Theorem activity_log_bounded_newest_first :
  forall ms : list string,
    List.length (log_after ms) <= 20 /\
    log_after ms = firstn 20 (rev ms) /\
    log_after ms = rev (skipn (List.length ms - 20) ms) /\
    (List.length ms = 25 -> log_after ms = rev (skipn 5 ms)) /\
    (forall m w, exists dropped,
        m :: logEntries w = logEntries (addLog m w) ++ dropped) /\
    (forall inputs, List.length (logEntries (run inputs initial)) <= 20).
Proof.
  intros ms.
  assert (Hlog : log_after ms = firstn 20 (rev ms)).
  { unfold log_after. rewrite append_all_log.
    - cbn [logEntries initial]. rewrite app_nil_r. reflexivity.
    - cbn [logEntries initial List.length]. unfold log_capacity. lia. }
  repeat split.
  - rewrite Hlog. apply firstn_le_length.
  - exact Hlog.
  - rewrite Hlog. apply firstn_rev.
  - intros H25. rewrite Hlog, firstn_rev, H25. reflexivity.
  - intros m w. apply addLog_entries_prefix.
  - intros inputs. apply run_log_bounded.
    cbn [logEntries initial List.length]. unfold log_capacity. lia.
Qed.

Lemma activity_log_bounded_newest_first_witness :
  List.length twenty_five_messages = 25 /\
  log_after twenty_five_messages =
    ["m25"; "m24"; "m23"; "m22"; "m21"; "m20"; "m19"; "m18"; "m17"; "m16";
     "m15"; "m14"; "m13"; "m12"; "m11"; "m10"; "m09"; "m08"; "m07"; "m06"].
Proof.
  split.
  - reflexivity.
  - exact (proj1 (proj2 (proj2 (proj2
             (activity_log_bounded_newest_first twenty_five_messages))))
             eq_refl).
Defined.

(** ** connect with missing credentials *)

(** C7.  When the transport URI, the identity URI or the secret is empty,
    connect appends one log message and does nothing else: the connection
    state, the call state, both handles and the form fields are as before,
    and no call reaches the engine, whatever the engine would have
    answered. *)
Theorem connect_missing_credentials :
  forall (o : EngineOutcome) (w : World),
    wsUri w = "" \/ sipUri w = "" \/ password w = "" ->
    connect o w = addLog missing_credentials_message w /\
    logEntries (connect o w) =
      addLog_entries missing_credentials_message (logEntries w) /\
    status (connect o w) = status w /\
    callState (connect o w) = callState w /\
    uaRef (connect o w) = uaRef w /\
    activeSessionRef (connect o w) = activeSessionRef w /\
    engine (connect o w) = engine w /\
    calls_since w (connect o w) = [] /\
    nextUA (connect o w) = nextUA w /\
    number (connect o w) = number w.
Proof.
  intros o w H.
  assert (Hc : connect o w = addLog missing_credentials_message w).
  { unfold connect.
    destruct H as [H | [H | H]]; rewrite H; cbn [truthy negb orb].
    - reflexivity.
    - rewrite orb_true_r. reflexivity.
    - rewrite orb_true_r. reflexivity. }
  rewrite Hc. repeat split.
  apply calls_since_app. cbn [engine addLog setLogEntries]. rewrite app_nil_r. reflexivity.
Qed.

Lemma connect_missing_credentials_witness :
  password initial = "" /\
  engine (connect Built initial) = [] /\
  status (connect Built initial) = disconnected /\
  logEntries (connect Built initial) = [missing_credentials_message].
Proof.
  pose proof (connect_missing_credentials Built initial
                (or_intror (or_intror eq_refl))) as H.
  destruct H as (_ & Hlog & Hst & _ & _ & _ & Heng & _).
  split; [reflexivity|].
  split; [exact Heng|].
  split; [exact Hst|].
  exact Hlog.
Defined.

(** ** dial: the rejected paths *)

Lemma dial_offline : forall r w,
  isConnected w = false -> dial r w = addLog "Connect to the SIP server first." w.
Proof.
  intros r w H. unfold dial. rewrite H. destruct (uaRef w); reflexivity.
Qed.

Lemma dial_empty_number : forall r w,
  number w = "" ->
  dial r w = addLog (match uaRef w with
                     | Some _ => if isConnected w
                                 then "Enter a destination number."
                                 else "Connect to the SIP server first."
                     | None => "Connect to the SIP server first."
                     end) w.
Proof.
  intros r w H. unfold dial. rewrite H. cbn [truthy negb].
  destruct (uaRef w); [destruct (isConnected w)|]; reflexivity.
Qed.

(** C8.  A dial made while the connection is neither connected nor
    registered makes no call on the engine, appends exactly one log entry
    and leaves the call state as it was.  A dial with an empty number is
    rejected in the same way: one log entry, no call on the engine.  Since
    the engine is not reached, what it would have answered plays no part. *)
Theorem dial_rejected_when_unusable_or_empty :
  forall (r : Reply) (w : World),
    (isConnected w = false ->
       engine (dial r w) = engine w /\
       calls_since w (dial r w) = [] /\
       logEntries (dial r w) =
         addLog_entries "Connect to the SIP server first." (logEntries w) /\
       callState (dial r w) = callState w) /\
    (number w = "" ->
       engine (dial r w) = engine w /\
       calls_since w (dial r w) = [] /\
       (exists message,
          logEntries (dial r w) = addLog_entries message (logEntries w)) /\
       callState (dial r w) = callState w) /\
    (number w = "" -> uaRef w <> None -> isConnected w = true ->
       logEntries (dial r w) =
         addLog_entries "Enter a destination number." (logEntries w)).
Proof.
  intros r w. split; [|split].
  - intros H. rewrite (dial_offline r w H). repeat split.
    apply calls_since_app. cbn [engine addLog setLogEntries].
    rewrite app_nil_r. reflexivity.
  - intros H. rewrite (dial_empty_number r w H). repeat split.
    + apply calls_since_app. cbn [engine addLog setLogEntries].
      rewrite app_nil_r. reflexivity.
    + eexists. reflexivity.
  - intros H Hua Hc. rewrite (dial_empty_number r w H), Hc.
    destruct (uaRef w); [reflexivity | congruence].
Qed.

Lemma dial_rejected_when_unusable_or_empty_witness :
  (isConnected initial = false /\
   engine (dial (announces 1) initial) = engine initial /\
   logEntries (dial (announces 1) initial) =
     addLog_entries "Connect to the SIP server first." (logEntries initial) /\
   callState (dial (announces 1) initial) = callState initial) /\
  (number online_cleared = "" /\
   uaRef online_cleared <> None /\
   isConnected online_cleared = true /\
   engine (dial (announces 1) online_cleared) = engine online_cleared /\
   logEntries (dial (announces 1) online_cleared) =
     addLog_entries "Enter a destination number." (logEntries online_cleared)).
Proof.
  assert (Hoff : isConnected initial = false) by reflexivity.
  assert (Hnum : number online_cleared = "") by (vm_compute; reflexivity).
  assert (Hua : uaRef online_cleared <> None) by (vm_compute; discriminate).
  assert (Hon : isConnected online_cleared = true) by (vm_compute; reflexivity).
  destruct (dial_rejected_when_unusable_or_empty (announces 1) initial) as [H1 _].
  destruct (dial_rejected_when_unusable_or_empty (announces 1) online_cleared)
    as (_ & H2 & H3).
  destruct (H1 Hoff) as (He & _ & Hl & Hc).
  destruct (H2 Hnum) as (He' & _).
  split.
  - split; [exact Hoff|]. split; [exact He|]. split; [exact Hl | exact Hc].
  - split; [exact Hnum|]. split; [exact Hua|]. split; [exact Hon|].
    split; [exact He' | exact (H3 Hnum Hua Hon)].
Defined.

(** ** The keypad *)

(** C10.  After a keypad press the dial number has at most 32 characters; a
    press made when it has exactly 32 leaves it as it was.  Whether or not
    the number took the digit, the digit is sent as DTMF to the held
    session, and nothing is sent when no session is held. *)
Theorem keypad_number_bounded :
  forall (digit : string) (w : World),
    String.length (number (handleKeypad digit w)) <= 32 /\
    (String.length (number w) = 32 ->
       number (handleKeypad digit w) = number w) /\
    (forall session, activeSessionRef w = Some session ->
       engine (handleKeypad digit w) =
         engine w ++ [SessionSendDTMF session digit]) /\
    (activeSessionRef w = None -> engine (handleKeypad digit w) = engine w).
Proof.
  intros digit w.
  assert (Hn : number (handleKeypad digit w) =
               slice_string number_capacity (number w ++ digit)).
  { unfold handleKeypad, andThen, send_dtmf.
    cbn [activeSessionRef setNumber]. destruct (activeSessionRef w); reflexivity. }
  split; [|split; [|split]].
  - rewrite Hn. apply slice_string_length.
  - intros H32. rewrite Hn. unfold number_capacity. rewrite <- H32.
    apply slice_string_app.
  - intros session Hs. unfold handleKeypad, andThen, send_dtmf.
    cbn [activeSessionRef setNumber]. rewrite Hs. reflexivity.
  - intros Hs. unfold handleKeypad, andThen, send_dtmf.
    cbn [activeSessionRef setNumber]. rewrite Hs. reflexivity.
Qed.

Lemma keypad_number_bounded_witness :
  String.length (number full_number_in_call) = 32 /\
  activeSessionRef full_number_in_call = Some 4 /\
  number (handleKeypad "7" full_number_in_call) = number full_number_in_call /\
  engine (handleKeypad "7" full_number_in_call) =
    engine full_number_in_call ++ [SessionSendDTMF 4 "7"].
Proof.
  assert (H32 : String.length (number full_number_in_call) = 32)
    by (vm_compute; reflexivity).
  assert (Hs : activeSessionRef full_number_in_call = Some 4)
    by (vm_compute; reflexivity).
  destruct (keypad_number_bounded "7" full_number_in_call)
    as (_ & Hsame & Hsend & _).
  split; [exact H32|]. split; [exact Hs|].
  split; [exact (Hsame H32) | exact (Hsend 4 Hs)].
Defined.

(** ** connect with credentials *)

(** C9, as stated, fails: with non-empty credentials whose transport URI
    the engine turns down, connect builds no transport handle and leaves the
    connection state disconnected, not connecting. *)
Lemma connect_malformed_uri_not_connecting :
  wsUri malformed_uri_world <> "" /\
  sipUri malformed_uri_world <> "" /\
  password malformed_uri_world <> "" /\
  status (connect (SocketRaises "Invalid argument: nonsense") malformed_uri_world)
    = disconnected /\
  uaRef (connect (SocketRaises "Invalid argument: nonsense") malformed_uri_world)
    = None /\
  calls_since malformed_uri_world
    (connect (SocketRaises "Invalid argument: nonsense") malformed_uri_world)
    = [NewWebSocketInterface "nonsense"].
Proof.
  vm_compute. repeat split; discriminate.
Qed.

(** C9, amended.  With the three credentials non-empty, connect never
    looks at the connection state: its result is the same whatever the
    state was, also when the engine raises.  Provided the engine builds the
    transport (its constructors and start return), connect creates a user
    agent that is neither the one held nor any one the component addressed
    before, puts it in place of the held one without a stop call, and sets
    the connection state to connecting. *)
Theorem connect_not_guarded_by_status :
  forall w : World,
    wsUri w <> "" -> sipUri w <> "" -> password w <> "" ->
    (forall o st, connect o (setStatus st w) = connect o w) /\
    status (connect Built w) = connecting /\
    uaRef (connect Built w) = Some (nextUA w) /\
    engine (connect Built w) = engine w ++ connect_calls w /\
    existsb is_stop (connect_calls w) = false /\
    (forall inputs, w = run inputs initial ->
       uaRef w <> Some (nextUA w) /\
       (forall c, In c (engine w) -> ua_of_call c <> Some (nextUA w))).
Proof.
  intros w H1 H2 H3.
  pose proof (credentials_present_intro w H1 H2 H3) as Hcred.
  split; [|split; [|split; [|split; [|split]]]].
  - intros o st. apply connect_ignores_status. exact Hcred.
  - rewrite (connect_built w Hcred). reflexivity.
  - rewrite (connect_built w Hcred). reflexivity.
  - rewrite (connect_built w Hcred). reflexivity.
  - reflexivity.
  - intros inputs Hrun.
    assert (Hc : handles_created w).
    { rewrite Hrun. apply run_handles_created. apply initial_handles_created. }
    destruct Hc as [Href Heng]. split.
    + intros Hua. specialize (Href _ Hua). lia.
    + intros c Hin Hua. specialize (Heng _ _ Hin Hua). lia.
Qed.

Lemma connect_not_guarded_by_status_witness :
  status registered_world = registered /\
  uaRef registered_world = Some 0 /\
  nextUA registered_world = 1 /\
  status (connect Built registered_world) = connecting /\
  uaRef (connect Built registered_world) = Some (nextUA registered_world) /\
  uaRef registered_world <> Some (nextUA registered_world).
Proof.
  assert (H1 : wsUri registered_world <> "") by (vm_compute; discriminate).
  assert (H2 : sipUri registered_world <> "") by (vm_compute; discriminate).
  assert (H3 : password registered_world <> "") by (vm_compute; discriminate).
  destruct (connect_not_guarded_by_status registered_world H1 H2 H3)
    as (_ & Hst & Hua & _ & _ & Hfresh).
  destruct (Hfresh registered_inputs eq_refl) as [Hheld _].
  split; [vm_compute; reflexivity|].
  split; [vm_compute; reflexivity|].
  split; [vm_compute; reflexivity|].
  split; [exact Hst|]. split; [exact Hua | exact Hheld].
Defined.

(** ** The session handle *)

(** C2, as stated, fails: a second session that arrives while session 1 is
    held is not refused.  It takes the place of session 1 and the component
    subscribes to its events; no terminate call is made on either. *)
Lemma second_session_is_adopted :
  activeSessionRef ringing_world = Some 1 /\
  activeSessionRef (ua_newRTCSession 2 ringing_world) = Some 2 /\
  calls_since ringing_world (ua_newRTCSession 2 ringing_world) =
    session_subscriptions 2.
Proof.
  vm_compute. repeat split.
Qed.

(** C2, amended.  The component has one slot for a session handle, so it
    holds at most one.  A session announced by the engine is always
    adopted: it is written to the slot whether or not a session is held
    there, the component subscribes to its four lifecycle events, and it
    makes no other call on the engine; the connection state, the call state
    and the log are untouched. *)
Theorem new_session_always_adopted :
  forall (session : RTCSession) (w : World),
    activeSessionRef (ua_newRTCSession session w) = Some session /\
    engine (ua_newRTCSession session w) =
      engine w ++ session_subscriptions session /\
    status (ua_newRTCSession session w) = status w /\
    callState (ua_newRTCSession session w) = callState w /\
    logEntries (ua_newRTCSession session w) = logEntries w /\
    (forall inputs held,
       activeSessionRef (run inputs initial) = Some held ->
       activeSessionRef (step (UAFires (ev_newRTCSession session))
                              (run inputs initial)) = Some session).
Proof.
  intros session w. rewrite (ua_newRTCSession_world session w).
  split; [reflexivity|]. split; [reflexivity|]. split; [reflexivity|].
  split; [reflexivity|]. split; [reflexivity|].
  intros inputs held _. cbn [step on_ua_event].
  rewrite ua_newRTCSession_world. reflexivity.
Qed.

Lemma new_session_always_adopted_witness :
  activeSessionRef (run ringing_inputs initial) = Some 1 /\
  activeSessionRef (step (UAFires (ev_newRTCSession 2))
                         (run ringing_inputs initial)) = Some 2.
Proof.
  assert (Hheld : activeSessionRef (run ringing_inputs initial) = Some 1)
    by (vm_compute; reflexivity).
  destruct (new_session_always_adopted 2 initial) as (_ & _ & _ & _ & _ & Hrun).
  split; [exact Hheld | exact (Hrun ringing_inputs 1 Hheld)].
Defined.

Lemma run_keeps_session : forall inputs w,
  activeSessionRef w <> None -> activeSessionRef (run inputs w) <> None.
Proof.
  induction inputs as [|i rest IH]; intros w Hw; simpl.
  - exact Hw.
  - apply IH. rewrite step_session_ref. apply last_session_held. exact Hw.
Qed.

(** C3, as stated, fails: after the ended event, after the failed event and
    after a hangup whose terminate call returns (with or without the failed
    event that the engine fires inside it), session 1 is still held. *)
Lemma session_handle_held_after_end :
  activeSessionRef ringing_world = Some 1 /\
  activeSessionRef (session_ended ringing_world) = Some 1 /\
  activeSessionRef (session_failed None ringing_world) = Some 1 /\
  activeSessionRef (hangup returns ringing_world) = Some 1 /\
  activeSessionRef (hangup rejected_inside ringing_world) = Some 1.
Proof.
  vm_compute. repeat split.
Qed.

(** C3, amended.  After the ended or the failed event of a session, and
    after hangup on a held session, the session handle is still held: no
    handler writes it absent, so the releasing write happens zero times.
    The handle changes only when the engine announces a session, so once a
    session is held a handle is held for the rest of the run. *)
Theorem session_handle_never_released :
  forall w : World,
    (forall e, activeSessionRef (on_session_event e w) = activeSessionRef w) /\
    (forall e, activeSessionRef (on_call_event e w) = activeSessionRef w) /\
    (forall r, activeSessionRef w <> None ->
               activeSessionRef (hangup r w) <> None) /\
    (forall r, announces_none (fired r) = true ->
               activeSessionRef (hangup r w) = activeSessionRef w) /\
    (forall inputs, activeSessionRef w <> None ->
       activeSessionRef (run inputs w) <> None).
Proof.
  intros w. split; [|split; [|split; [|split]]].
  - intros e. apply (step_session_ref (SessionFires e) w).
  - intros e. apply (step_session_ref (CallFires e) w).
  - intros r Hs. pose proof (step_session_ref (ClickHangup r) w) as H.
    cbn [step] in H. rewrite H. apply last_session_held. exact Hs.
  - intros r Hq. pose proof (step_session_ref (ClickHangup r) w) as H.
    cbn [step delivered] in H. rewrite H.
    destruct (activeSessionRef w); [|reflexivity].
    apply last_session_quiet. exact Hq.
  - intros inputs. apply run_keeps_session.
Qed.

Lemma session_handle_never_released_witness :
  activeSessionRef ringing_world <> None /\
  activeSessionRef (hangup rejected_inside ringing_world) <> None /\
  announces_none (fired rejected_inside) = true /\
  activeSessionRef (hangup rejected_inside ringing_world) =
    activeSessionRef ringing_world /\
  activeSessionRef
    (run [SessionFires ev_confirmed; SessionFires ev_ended;
          ClickHangup (raises "Invalid status: 8");
          ClickDisconnect (raises "Invalid status: 8") returns] ringing_world)
    <> None.
Proof.
  assert (Hheld : activeSessionRef ringing_world <> None)
    by (vm_compute; discriminate).
  assert (Hq : announces_none (fired rejected_inside) = true) by reflexivity.
  destruct (session_handle_never_released ringing_world)
    as (_ & _ & Hhang & Hsame & Hrun).
  split; [exact Hheld|]. split; [exact (Hhang rejected_inside Hheld)|].
  split; [exact Hq|]. split; [exact (Hsame rejected_inside Hq)|].
  exact (Hrun _ Hheld).
Defined.

(** ** dial: the accepted path *)

Lemma dial_accepted : forall r w ua,
  uaRef w = Some ua -> isConnected w = true -> number w <> "" ->
  dial r w =
    mkWorld (wsUri w) (sipUri w) (displayName w) (password w)
            (status (fire (fired r) w)) (callState (fire (fired r) w))
            (number w)
            (match thrown r with
             | None => addLog_entries ("Dialing " ++ number w ++ "...")
                         (logEntries (fire (fired r) w))
             | Some _ => logEntries (fire (fired r) w)
             end)
            (uaRef w)
            (last_session (fired r) (activeSessionRef w))
            (engine w ++ UACall ua (number w) dial_options
                         :: subscriptions_of (fired r))
            (nextUA w).
Proof.
  intros r w ua Hua Hc Hn. apply dial_world; [exact Hua | exact Hc |].
  destruct (number w); [congruence | reflexivity].
Qed.




(** ** disconnect *)

Lemma cleanup_completes_returns : forall rt rs w,
  thrown rt = None -> thrown rs = None -> cleanup_completes rt rs w = true.
Proof.
  intros rt rs w Ht Hs. unfold cleanup_completes, terminate_raises, stop_raises.
  rewrite Ht, Hs. destruct (activeSessionRef w), (uaRef w); reflexivity.
Qed.

Lemma cleanup_nothing_held : forall rt rs w,
  uaRef w = None -> activeSessionRef w = None ->
  cleanup_completes rt rs w = true /\ cleanup_events rt rs w = [] /\
  cleanup_calls rt rs w = [].
Proof.
  intros rt rs w Hua Hs.
  unfold cleanup_completes, cleanup_events, cleanup_calls, terminate_raises,
    stop_raises. rewrite Hua, Hs. repeat split.
Qed.

(** C5, as stated, fails: a disconnect whose terminate and stop calls
    return asks the engine to terminate the held session 1 but keeps
    holding its handle. *)
Lemma disconnect_keeps_session_handle :
  activeSessionRef ringing_world = Some 1 /\
  calls_since ringing_world (disconnect rejected_inside returns ringing_world) =
    [SessionTerminate 1; UAStop 0] /\
  status (disconnect rejected_inside returns ringing_world) = disconnected /\
  activeSessionRef (disconnect rejected_inside returns ringing_world) = Some 1.
Proof.
  vm_compute. repeat split.
Qed.

(** C5, amended.  In every state, so after every sequence of commands and
    engine events, a disconnect whose terminate and stop calls return sets
    the connection state to disconnected and the call state to terminated
    and appends exactly one log entry of its own, in front of what the
    handlers run inside those calls logged.  It asks the engine to
    terminate the held session and to stop the held transport; with neither
    held it makes no call on the engine and always completes.  Both handles
    stay held: the session handle is not released. *)
Theorem disconnect_resets_states :
  forall (rt rs : Reply) (w : World),
    (thrown rt = None -> thrown rs = None ->
       status (disconnect rt rs w) = disconnected /\
       callState (disconnect rt rs w) = terminated /\
       logEntries (disconnect rt rs w) =
         addLog_entries "Disconnected from server."
           (logEntries (fire (cleanup_events rt rs w) w)) /\
       engine (disconnect rt rs w) = engine w ++ cleanup_calls rt rs w) /\
    (thrown rt = None -> thrown rs = None ->
     fired rt = [] -> fired rs = [] ->
       logEntries (disconnect rt rs w) =
         addLog_entries "Disconnected from server." (logEntries w) /\
       engine (disconnect rt rs w) =
         engine w ++
         match activeSessionRef w with
         | Some session => [SessionTerminate session]
         | None => []
         end ++
         match uaRef w with
         | Some ua => [UAStop ua]
         | None => []
         end) /\
    (uaRef w = None -> activeSessionRef w = None ->
       engine (disconnect rt rs w) = engine w /\
       status (disconnect rt rs w) = disconnected /\
       callState (disconnect rt rs w) = terminated /\
       logEntries (disconnect rt rs w) =
         addLog_entries "Disconnected from server." (logEntries w)) /\
    (activeSessionRef w <> None ->
       activeSessionRef (disconnect rt rs w) <> None) /\
    uaRef (disconnect rt rs w) = uaRef w /\
    (forall inputs, thrown rt = None -> thrown rs = None ->
       status (run (inputs ++ [ClickDisconnect rt rs]) w) = disconnected /\
       callState (run (inputs ++ [ClickDisconnect rt rs]) w) = terminated).
Proof.
  intros rt rs w.
  assert (Hret : forall w', thrown rt = None -> thrown rs = None ->
            status (disconnect rt rs w') = disconnected /\
            callState (disconnect rt rs w') = terminated /\
            logEntries (disconnect rt rs w') =
              addLog_entries "Disconnected from server."
                (logEntries (fire (cleanup_events rt rs w') w')) /\
            engine (disconnect rt rs w') = engine w' ++ cleanup_calls rt rs w').
  { intros w' Ht Hs. rewrite disconnect_world.
    rewrite (cleanup_completes_returns rt rs w' Ht Hs). repeat split. }
  split; [|split; [|split; [|split; [|split]]]].
  - apply Hret.
  - intros Ht Hs Hft Hfs. destruct (Hret w Ht Hs) as (_ & _ & Hlog & Heng).
    rewrite Hlog, Heng. unfold cleanup_events, cleanup_calls, terminate_raises.
    rewrite Ht, Hft, Hfs.
    destruct (activeSessionRef w), (uaRef w); split; reflexivity.
  - intros Hua Hs. rewrite disconnect_world.
    destruct (cleanup_nothing_held rt rs w Hua Hs) as (Hc & He & Hcalls).
    rewrite Hc, He, Hcalls. cbn [engine status callState logEntries].
    rewrite app_nil_r. repeat split.
  - intros Hs. pose proof (step_session_ref (ClickDisconnect rt rs) w) as H.
    cbn [step] in H. rewrite H. apply last_session_held. exact Hs.
  - apply (step_ua_ref (ClickDisconnect rt rs) w).
  - intros inputs Ht Hs. revert w.
    induction inputs as [|i rest IH]; intros w.
    + cbn [app run step]. destruct (Hret w Ht Hs) as (H1 & H2 & _).
      split; assumption.
    + cbn [app run]. apply IH.
Qed.

Lemma disconnect_resets_states_witness :
  thrown rejected_inside = None /\
  thrown returns = None /\
  status (disconnect rejected_inside returns ringing_world) = disconnected /\
  callState (disconnect rejected_inside returns ringing_world) = terminated /\
  activeSessionRef ringing_world <> None /\
  activeSessionRef (disconnect rejected_inside returns ringing_world) <> None /\
  uaRef initial = None /\
  activeSessionRef initial = None /\
  engine (disconnect (raises "x") (raises "y") initial) = engine initial.
Proof.
  assert (Hheld : activeSessionRef ringing_world <> None)
    by (vm_compute; discriminate).
  destruct (disconnect_resets_states rejected_inside returns ringing_world)
    as (Hret & _ & _ & Hkeep & _).
  destruct (Hret eq_refl eq_refl) as (Hst & Hcs & _).
  destruct (disconnect_resets_states (raises "x") (raises "y") initial)
    as (_ & _ & Hsafe & _).
  destruct (Hsafe eq_refl eq_refl) as (Heng & _).
  split; [reflexivity|]. split; [reflexivity|].
  split; [exact Hst|]. split; [exact Hcs|].
  split; [exact Hheld|]. split; [exact (Hkeep Hheld)|].
  split; [reflexivity|]. split; [reflexivity | exact Heng].
Defined.

(** ** dial and the call state *)

Lemma on_engine_event_callState : forall e w,
  callState (on_engine_event e w) = callState w \/
  callState (on_engine_event e w) <> idle.
Proof.
  intros e w.
  destruct e as [[| | | |cause|session]|[| | |cause]|[| | |cause]];
    try (left; reflexivity); right; discriminate.
Qed.

Lemma fire_callState : forall es w,
  callState (fire es w) = callState w \/ callState (fire es w) <> idle.
Proof.
  induction es as [|e rest IH]; intros w.
  - left. reflexivity.
  - change (fire (e :: rest) w) with (fire rest (on_engine_event e w)).
    destruct (IH (on_engine_event e w)) as [Hsame | Hne]; [|right; exact Hne].
    rewrite Hsame. apply on_engine_event_callState.
Qed.

(** No handler writes the call state, except the handlers of events and,
    with the value terminated, hangup and disconnect. *)
Lemma step_callState_via_events : forall i w,
  callState (step i w) = callState (fire (delivered i w) w) \/
  callState (step i w) = terminated.
Proof.
  intros i w.
  destruct i as [v|v|v|v|v| |o|rt rs|r|r|digit|e|e|e];
    try (left; reflexivity).
  - left. apply connect_callState.
  - cbn [step delivered]. rewrite disconnect_world. cbn [callState].
    destruct (cleanup_completes rt rs w); [right | left]; reflexivity.
  - left. cbn [step delivered]. destruct (dial_reaches_engine w) eqn:Hd.
    + destruct (dial_reaches_engine_true w Hd) as (ua & Hua & Hc & Hn).
      rewrite (dial_world r w ua Hua Hc Hn). reflexivity.
    + destruct (dial_rejected r w Hd) as (m & Hm). rewrite Hm. reflexivity.
  - cbn [step delivered]. destruct (activeSessionRef w) as [s|] eqn:Hs.
    + rewrite (hangup_world r w s Hs). cbn [callState].
      destruct (thrown r); [left | right]; reflexivity.
    + rewrite (hangup_none r w Hs). left. reflexivity.
  - left. cbn [step delivered]. rewrite handleKeypad_world. reflexivity.
Qed.

Lemma fire_without_session : forall es w,
  events_ok false es = true -> announces_none es = true ->
  callState (fire es w) = callState w \/ callState (fire es w) = terminated.
Proof.
  induction es as [|e rest IH]; intros w Hok Hq.
  - left. reflexivity.
  - change (fire (e :: rest) w) with (fire rest (on_engine_event e w)).
    cbn [announces_none forallb] in Hq. apply andb_prop in Hq.
    destruct Hq as [He Hrest].
    assert (Hok' : events_ok false rest = true).
    { destruct e as [[| | | |cause|session]|e|e];
        cbn [events_ok andb announcement] in Hok, He;
        try discriminate Hok; try discriminate He; exact Hok. }
    assert (Hev : callState (on_engine_event e w) = callState w \/
                  callState (on_engine_event e w) = terminated).
    { destruct e as [[| | | |cause|session]|e|e];
        cbn [events_ok andb] in Hok; try discriminate Hok;
        try (left; reflexivity). right. reflexivity. }
    destruct (IH (on_engine_event e w) Hok' Hrest) as [Hsame | Hterm];
      [rewrite Hsame; exact Hev | right; exact Hterm].
Qed.

Lemma last_session_none : forall es held,
  last_session es held = None -> held = None /\ announces_none es = true.
Proof.
  induction es as [|e rest IH]; intros held H.
  - split; [exact H | reflexivity].
  - cbn [last_session] in H. apply IH in H. destruct H as [Hh Hq].
    cbn [announces_none forallb]. fold (announces_none rest).
    destruct (announcement e); [discriminate Hh|]. split; [exact Hh | exact Hq].
Qed.

Lemma step_quiet_without_session : forall i w,
  follows_protocol i w = true ->
  quiet_without_session w -> quiet_without_session (step i w).
Proof.
  intros i w Hp Hw Hnone.
  rewrite step_session_ref in Hnone.
  apply last_session_none in Hnone. destruct Hnone as [Hheld Hq].
  unfold follows_protocol in Hp. rewrite Hheld in Hp.
  specialize (Hw Hheld).
  destruct (step_callState_via_events i w) as [Hvia | Hterm];
    [|right; exact Hterm].
  rewrite Hvia.
  destruct (fire_without_session (delivered i w) w Hp Hq) as [Hsame | Hterm];
    [rewrite Hsame; exact Hw | right; exact Hterm].
Qed.

Lemma step_keeps_session : forall i w,
  activeSessionRef w <> None -> activeSessionRef (step i w) <> None.
Proof.
  intros i w H. rewrite step_session_ref. apply last_session_held. exact H.
Qed.

Lemma step_keeps_ua : forall i w,
  uaRef w <> None -> uaRef (step i w) <> None.
Proof.
  intros i w Hw. rewrite step_ua_ref.
  destruct i as [v|v|v|v|v| |o|rt rs|r|r|digit|e|e|e]; try exact Hw.
  destruct o; try exact Hw.
  destruct (credentials_present w); [discriminate | exact Hw].
Qed.

Lemma page_step_consistent : forall title pi p,
  possible title pi p = true -> page_consistent p ->
  page_consistent (page_step pi p).
Proof.
  intros title pi p Hposs (Hw & Hr & Hs & Hu).
  destruct pi as [i|].
  - cbn [possible] in Hposs. apply andb_prop in Hposs. destruct Hposs as [Hp _].
    cbn [page_step]. repeat split; cbn [world rendered].
    + apply step_quiet_without_session; assumption.
    + exact Hr.
    + intros H. apply step_keeps_session. apply Hs. exact H.
    + intros H. apply step_keeps_ua. apply Hu. exact H.
  - cbn [page_step]. repeat split; cbn [world rendered]; auto.
Qed.

Lemma initial_page_consistent : page_consistent initial_page.
Proof.
  unfold page_consistent, quiet_without_session, initial_page.
  cbn [world rendered]. repeat split; intros H; try (left; reflexivity);
    exact H.
Qed.

Lemma same_state_callState : forall w1 w2,
  same_state w1 w2 = true ->
  callState w1 = callState w2 /\ status w1 = status w2.
Proof.
  intros w1 w2 H. unfold same_state in H.
  repeat (apply andb_prop in H; destruct H as [H ?]).
  split.
  - destruct (callState w1), (callState w2); try reflexivity; discriminate.
  - destruct (status w1), (status w2); try reflexivity; discriminate.
Qed.






(** * Further properties of the component *)

(** ** The engine raises during connect *)

(** X1.  When the credentials are present and the engine raises while the
    transport is built, connect logs the error message and sets the
    connection state to disconnected, whatever it was.  The transport handle
    held before is kept: it is neither replaced nor stopped.  The call
    state and the session handle are untouched. *)
Theorem connect_engine_raises :
  forall (o : EngineOutcome) (message : string) (w : World),
    wsUri w <> "" -> sipUri w <> "" -> password w <> "" ->
    raised o = Some message ->
    status (connect o w) = disconnected /\
    logEntries (connect o w) =
      addLog_entries ("Connection error: " ++ message) (logEntries w) /\
    uaRef (connect o w) = uaRef w /\
    engine (connect o w) = engine w ++ calls_before_raise o w /\
    existsb is_stop (calls_before_raise o w) = false /\
    callState (connect o w) = callState w /\
    activeSessionRef (connect o w) = activeSessionRef w /\
    isConnected (connect o w) = false.
Proof.
  intros o message w H1 H2 H3 Hr.
  pose proof (credentials_present_intro w H1 H2 H3) as Hcred.
  rewrite (connect_raised o message w Hcred Hr).
  split; [reflexivity|]. split; [reflexivity|]. split; [reflexivity|].
  split; [reflexivity|].
  split; [destruct o; try discriminate Hr; reflexivity|].
  split; [reflexivity|]. split; reflexivity.
Qed.

Lemma connect_engine_raises_witness :
  status registered_world = registered /\
  status (connect (StartRaises "boom") registered_world) = disconnected /\
  uaRef (connect (StartRaises "boom") registered_world) = uaRef registered_world.
Proof.
  assert (H1 : wsUri registered_world <> "") by (vm_compute; discriminate).
  assert (H2 : sipUri registered_world <> "") by (vm_compute; discriminate).
  assert (H3 : password registered_world <> "") by (vm_compute; discriminate).
  destruct (connect_engine_raises (StartRaises "boom") "boom" registered_world
              H1 H2 H3 eq_refl) as (Hst & _ & Hua & _).
  split; [vm_compute; reflexivity|]. split; [exact Hst | exact Hua].
Defined.

(** ** Which session is held *)

Lemma run_session_ref : forall inputs w,
  activeSessionRef (run inputs w) =
    last_session (delivered_in inputs w) (activeSessionRef w).
Proof.
  induction inputs as [|i rest IH]; intros w.
  - reflexivity.
  - cbn [run delivered_in]. rewrite IH, step_session_ref, last_session_app.
    reflexivity.
Qed.

Lemma announces_none_app : forall a b,
  announces_none (a ++ b) = announces_none a && announces_none b.
Proof.
  intros a b. unfold announces_none. apply forallb_app.
Qed.

Lemma delivered_quiet : forall i w,
  announces_nothing i = true -> announces_none (delivered i w) = true.
Proof.
  intros i w Hi. unfold announces_nothing in Hi.
  destruct i as [v|v|v|v|v| |o|rt rs|r|r|digit|e|e|e];
    cbn [announced reply_events delivered] in *; try reflexivity.
  - rewrite announces_none_app in Hi. apply andb_prop in Hi.
    destruct Hi as [Ht Hs]. unfold cleanup_events.
    rewrite announces_none_app.
    destruct (activeSessionRef w), (terminate_raises rt w), (uaRef w);
      try rewrite Ht; try rewrite Hs; reflexivity.
  - destruct (dial_reaches_engine w); [exact Hi | reflexivity].
  - destruct (activeSessionRef w); [exact Hi | reflexivity].
  - destruct e; try reflexivity. discriminate Hi.
Qed.

Lemma delivered_in_top_level : forall inputs w held,
  forallb (fun i => announces_none (reply_events i)) inputs = true ->
  last_session (delivered_in inputs w) held = last_announced inputs held.
Proof.
  induction inputs as [|i rest IH]; intros w held Hq.
  - reflexivity.
  - cbn [forallb] in Hq. apply andb_prop in Hq. destruct Hq as [Hi Hrest].
    cbn [delivered_in last_announced]. rewrite last_session_app.
    rewrite (IH (step i w) _ Hrest). f_equal.
    destruct (announced i) as [s|] eqn:Ha.
    + destruct i as [v|v|v|v|v| |o|rt rs|r|r|digit|e|e|e]; try discriminate Ha.
      destruct e; try discriminate Ha. inversion Ha; subst. reflexivity.
    + apply last_session_quiet. apply delivered_quiet.
      unfold announces_nothing. rewrite Ha. exact Hi.
Qed.

(** X2.  After any run the session handle is the session announced last
    among the events delivered in the run, or the one held at the start
    when none was announced; what happened to that session in between does
    not matter.  When the engine announces sessions only by events of their
    own, not inside its replies, this is the last announcement among the
    inputs.  hangup asks the engine to terminate the session held and a key
    press sends its digit to it. *)
Theorem session_ref_is_last_announced :
  forall (inputs : list Input) (w : World),
    activeSessionRef (run inputs w) =
      last_session (delivered_in inputs w) (activeSessionRef w) /\
    (forallb (fun i => announces_none (reply_events i)) inputs = true ->
       activeSessionRef (run inputs w) =
         last_announced inputs (activeSessionRef w) /\
       (forall session,
          last_announced inputs (activeSessionRef w) = Some session ->
          engine (hangup returns (run inputs w)) =
            engine (run inputs w) ++ [SessionTerminate session] /\
          (forall digit,
             engine (handleKeypad digit (run inputs w)) =
               engine (run inputs w) ++ [SessionSendDTMF session digit]))) /\
    (forall session, activeSessionRef (run inputs w) = Some session ->
       (forall r,
          engine (hangup r (run inputs w)) =
            engine (run inputs w) ++
            SessionTerminate session :: subscriptions_of (fired r)) /\
       (forall digit,
          engine (handleKeypad digit (run inputs w)) =
            engine (run inputs w) ++ [SessionSendDTMF session digit])).
Proof.
  intros inputs w.
  assert (Hcalls : forall session,
            activeSessionRef (run inputs w) = Some session ->
            (forall r,
               engine (hangup r (run inputs w)) =
                 engine (run inputs w) ++
                 SessionTerminate session :: subscriptions_of (fired r)) /\
            (forall digit,
               engine (handleKeypad digit (run inputs w)) =
                 engine (run inputs w) ++ [SessionSendDTMF session digit])).
  { intros session Hs. split.
    - intros r. rewrite (hangup_world r _ session Hs). reflexivity.
    - intros digit. rewrite handleKeypad_world. cbn [engine]. rewrite Hs.
      reflexivity. }
  split; [apply run_session_ref|]. split; [|exact Hcalls].
  intros Hq.
  assert (Href : activeSessionRef (run inputs w) =
                 last_announced inputs (activeSessionRef w)).
  { rewrite run_session_ref. apply delivered_in_top_level. exact Hq. }
  split; [exact Href|].
  intros session Hlast. rewrite <- Href in Hlast.
  destruct (Hcalls session Hlast) as [Hhang Hkey].
  split; [apply (Hhang returns) | exact Hkey].
Qed.

Lemma session_ref_is_last_announced_witness :
  forallb (fun i => announces_none (reply_events i)) two_sessions_inputs = true /\
  last_announced two_sessions_inputs (activeSessionRef ringing_world) = Some 3 /\
  activeSessionRef (run two_sessions_inputs ringing_world) = Some 3 /\
  engine (hangup returns (run two_sessions_inputs ringing_world)) =
    engine (run two_sessions_inputs ringing_world) ++ [SessionTerminate 3].
Proof.
  assert (Hq : forallb (fun i => announces_none (reply_events i))
                 two_sessions_inputs = true) by reflexivity.
  assert (Hlast : last_announced two_sessions_inputs
                    (activeSessionRef ringing_world) = Some 3)
    by (vm_compute; reflexivity).
  destruct (session_ref_is_last_announced two_sessions_inputs ringing_world)
    as (_ & Htop & _).
  destruct (Htop Hq) as [Href Hcalls].
  destruct (Hcalls 3 Hlast) as [Hhang _].
  split; [exact Hq|]. split; [exact Hlast|].
  split; [rewrite Href; exact Hlast | exact Hhang].
Defined.

Lemma connect_calls_not_session : forall w c,
  In c (connect_calls w) -> is_session_call c = false.
Proof.
  intros w c Hin. unfold connect_calls in Hin. simpl in Hin.
  repeat (destruct Hin as [Hin | Hin]; [subst c; reflexivity|]).
  contradiction.
Qed.

Lemma not_announced_when_quiet : forall es session,
  announces_none es = true -> ~ In (FromUA (ev_newRTCSession session)) es.
Proof.
  induction es as [|e rest IH]; intros session Hq Hin.
  - destruct Hin.
  - cbn [announces_none forallb] in Hq. apply andb_prop in Hq.
    destruct Hq as [He Hrest]. destruct Hin as [Hin | Hin].
    + subst e. discriminate He.
    + apply (IH session Hrest Hin).
Qed.

Lemma step_without_session : forall i w,
  announces_nothing i = true ->
  activeSessionRef w = None ->
  (forall c, In c (engine w) -> is_session_call c = false) ->
  activeSessionRef (step i w) = None /\
  (forall c, In c (engine (step i w)) -> is_session_call c = false).
Proof.
  intros i w Hi Hs Heng.
  pose proof (delivered_quiet i w Hi) as Hq. split.
  - rewrite step_session_ref, (last_session_quiet _ _ Hq). exact Hs.
  - destruct (step_calls_cases i w) as (cs & Hcs & Horigin).
    intros c Hin. rewrite Hcs in Hin.
    apply in_app_or in Hin. destruct Hin as [Hin | Hin]; [apply Heng; exact Hin|].
    destruct (Horigin c Hin) as [Hheld | [Hnew | [Hua | Hconn]]].
    + destruct Hheld as (s & Hheld & _). congruence.
    + destruct Hnew as (s & ev & Hnew & _).
      exfalso. apply (not_announced_when_quiet _ s Hq Hnew).
    + destruct Hua as (ua & _ & [Hc | (_ & _ & Hc)]); subst c; reflexivity.
    + destruct Hconn as (o & _ & _ & Hc).
      eapply connect_calls_not_session. exact Hc.
Qed.

(** X3.  As long as the engine has announced no session, neither by an
    event of its own nor inside a reply, no session handle is held and no
    call at all is made on a session: hangup changes nothing and a key
    press only edits the number. *)
Theorem no_session_call_before_announcement :
  forall inputs : list Input,
    forallb announces_nothing inputs = true ->
    activeSessionRef (run inputs initial) = None /\
    (forall c, In c (engine (run inputs initial)) -> is_session_call c = false) /\
    (forall r, hangup r (run inputs initial) = run inputs initial) /\
    (forall digit,
       engine (handleKeypad digit (run inputs initial)) =
         engine (run inputs initial)).
Proof.
  intros inputs Hin.
  assert (H : forall w,
             activeSessionRef w = None ->
             (forall c, In c (engine w) -> is_session_call c = false) ->
             activeSessionRef (run inputs w) = None /\
             (forall c, In c (engine (run inputs w)) -> is_session_call c = false)).
  { induction inputs as [|i rest IH]; intros w Hs Heng.
    - split; assumption.
    - cbn [forallb] in Hin. apply andb_prop in Hin. destruct Hin as [Hi Hrest].
      cbn [run].
      destruct (step_without_session i w Hi Hs Heng) as [Hs' Heng'].
      apply (IH Hrest _ Hs' Heng'). }
  destruct (H initial eq_refl (fun c (F : In c []) => match F with end))
    as [Hs Heng].
  split; [exact Hs|]. split; [exact Heng|]. split.
  - intros r. apply hangup_none. exact Hs.
  - intros digit. rewrite handleKeypad_world. cbn [engine]. rewrite Hs.
    apply app_nil_r.
Qed.

Lemma no_session_call_before_announcement_witness :
  forallb announces_nothing
    (online_inputs ++ [ClickCall (raises "Invalid target"); ClickHangup returns;
                       ClickKey "5"]) = true /\
  activeSessionRef
    (run (online_inputs ++ [ClickCall (raises "Invalid target");
                            ClickHangup returns; ClickKey "5"]) initial) = None.
Proof.
  assert (Hin : forallb announces_nothing
                  (online_inputs ++ [ClickCall (raises "Invalid target");
                                     ClickHangup returns; ClickKey "5"]) = true)
    by (vm_compute; reflexivity).
  destruct (no_session_call_before_announcement _ Hin) as [Hs _].
  split; [exact Hin | exact Hs].
Defined.

(** ** The transport handle *)

Lemma run_keeps_ua : forall inputs w,
  uaRef w <> None -> uaRef (run inputs w) <> None.
Proof.
  induction inputs as [|i rest IH]; intros w Hw; cbn [run].
  - exact Hw.
  - apply IH. apply step_keeps_ua. exact Hw.
Qed.

(** X4.  disconnect keeps the session handle, so a second disconnect calls
    terminate on the session of the first again.  When a terminate call
    raises, as the engine does for a session that is over, disconnect ends
    there: the user agent is not stopped, and disconnect itself sets no
    state and logs nothing. *)
Theorem disconnect_ends_where_terminate_raises :
  forall (rt rs : Reply) (w : World) (session : RTCSession) (message : string),
    activeSessionRef w = Some session -> thrown rt = Some message ->
    engine (disconnect rt rs w) =
      engine w ++ SessionTerminate session :: subscriptions_of (fired rt) /\
    (forall ua, ~ In (UAStop ua) (calls_since w (disconnect rt rs w))) /\
    state_agrees (disconnect rt rs w) (fire (fired rt) w) /\
    (fired rt = [] ->
       status (disconnect rt rs w) = status w /\
       callState (disconnect rt rs w) = callState w /\
       logEntries (disconnect rt rs w) = logEntries w) /\
    (forall rt' rs',
       thrown rt' = None -> thrown rs' = None ->
       announces_none (fired rt') = true -> announces_none (fired rs') = true ->
       engine (disconnect rt rs (disconnect rt' rs' w)) =
         engine (disconnect rt' rs' w) ++
         SessionTerminate session :: subscriptions_of (fired rt)).
Proof.
  intros rt rs w session message Hs Ht.
  assert (Hw : forall w0, activeSessionRef w0 = Some session ->
            cleanup_completes rt rs w0 = false /\
            cleanup_events rt rs w0 = fired rt /\
            cleanup_calls rt rs w0 =
              SessionTerminate session :: subscriptions_of (fired rt)).
  { intros w0 Hs0.
    unfold cleanup_completes, cleanup_events, cleanup_calls, terminate_raises.
    rewrite Hs0, Ht. cbn [negb andb]. rewrite !app_nil_r. repeat split. }
  destruct (Hw w Hs) as (Hc & He & Hcalls).
  assert (Heng : engine (disconnect rt rs w) =
                 engine w ++ SessionTerminate session :: subscriptions_of (fired rt)).
  { rewrite disconnect_world. cbn [engine]. rewrite Hcalls. reflexivity. }
  split; [exact Heng|]. split; [|split; [|split]].
  - intros ua Hin. rewrite (calls_since_app _ _ _ Heng) in Hin.
    destruct Hin as [Hin | Hin]; [discriminate Hin|].
    destruct (subscriptions_origin _ _ Hin) as (s & ev & _ & Hcall).
    discriminate Hcall.
  - rewrite disconnect_world, Hc, He. repeat split.
  - intros Hf. rewrite disconnect_world, Hc, He, Hf. repeat split.
  - intros rt' rs' Ht' Hs' Hqt Hqs.
    assert (Hheld : activeSessionRef (disconnect rt' rs' w) = Some session).
    { pose proof (step_session_ref (ClickDisconnect rt' rs') w) as H.
      cbn [step delivered] in H. rewrite H, Hs.
      apply last_session_quiet. unfold cleanup_events.
      rewrite announces_none_app, Hs, Hqt.
      destruct (terminate_raises rt' w), (uaRef w); try rewrite Hqs; reflexivity. }
    destruct (Hw _ Hheld) as (_ & _ & Hcalls').
    rewrite (disconnect_world rt rs (disconnect rt' rs' w)). cbn [engine].
    rewrite Hcalls'. reflexivity.
Qed.

Lemma disconnect_ends_where_terminate_raises_witness :
  activeSessionRef failed_call_world = Some 1 /\
  status failed_call_world = connected /\
  engine (disconnect (raises "Invalid status: 8") returns failed_call_world) =
    engine failed_call_world ++
    SessionTerminate 1 :: subscriptions_of (fired (raises "Invalid status: 8")) /\
  status (disconnect (raises "Invalid status: 8") returns failed_call_world) =
    status failed_call_world.
Proof.
  assert (Hs : activeSessionRef failed_call_world = Some 1)
    by (vm_compute; reflexivity).
  destruct (disconnect_ends_where_terminate_raises
              (raises "Invalid status: 8") returns failed_call_world 1
              "Invalid status: 8" Hs eq_refl) as (Heng & _ & _ & Hsame & _).
  destruct (Hsame eq_refl) as (Hst & _).
  split; [exact Hs|]. split; [vm_compute; reflexivity|].
  split; [exact Heng | exact Hst].
Defined.

(** X5.  The transport handle is written only by a connect that the engine
    lets through: every other input, disconnect included, leaves it as it
    was, a connect without credentials or one during which the engine
    raises leaves it as it was, and once a handle is held no run makes it
    absent. *)
Theorem transport_handle_only_replaced :
  forall w : World,
    (forall i, (forall o, i <> ClickConnect o) -> uaRef (step i w) = uaRef w) /\
    (forall o, o <> Built -> uaRef (connect o w) = uaRef w) /\
    (forall o, credentials_present w = false -> uaRef (connect o w) = uaRef w) /\
    (credentials_present w = true -> uaRef (connect Built w) = Some (nextUA w)) /\
    (forall inputs, uaRef w <> None -> uaRef (run inputs w) <> None).
Proof.
  intros w. split; [|split; [|split; [|split]]].
  - intros i Hi. rewrite step_ua_ref.
    destruct i as [v|v|v|v|v| |o|rt rs|r|r|digit|e|e|e]; try reflexivity.
    exfalso. apply (Hi o). reflexivity.
  - intros o Ho. rewrite connect_ua_ref.
    destruct o; try reflexivity. congruence.
  - intros o Hcred. rewrite connect_ua_ref, Hcred. destruct o; reflexivity.
  - intros Hcred. rewrite connect_ua_ref, Hcred. reflexivity.
  - intros inputs. apply run_keeps_ua.
Qed.

Lemma transport_handle_only_replaced_witness :
  uaRef registered_world <> None /\
  uaRef (step (ClickDisconnect returns returns) registered_world) = uaRef registered_world /\
  uaRef (connect (UARaises "bad uri") registered_world) = uaRef registered_world /\
  uaRef (run [ClickDisconnect returns returns; UAFires ev_disconnected;
              ClickConnect (SocketRaises "x")]
             registered_world) <> None.
Proof.
  assert (Hheld : uaRef registered_world <> None) by (vm_compute; discriminate).
  destruct (transport_handle_only_replaced registered_world)
    as (Hstep & Hraise & _ & _ & Hrun).
  split; [exact Hheld|].
  split; [apply Hstep; intros o; discriminate|].
  split; [apply Hraise; discriminate | exact (Hrun _ Hheld)].
Defined.

(** ** Calls on a user agent come after its start *)

Lemma starts_come_first_extend : forall calls cs,
  starts_come_first calls ->
  (forall c ua, In c cs -> needs_start c = Some ua -> In (UAStart ua) calls) ->
  starts_come_first (calls ++ cs).
Proof.
  intros calls cs Hold Hnew pre c post ua Heq Hc.
  apply app_eq_app in Heq. destruct Heq as (l & [[Hcalls Hrest] | [Hpre Hcs]]).
  - destruct l as [|c' l].
    + cbn [app] in Hrest. rewrite app_nil_r in Hcalls. subst pre.
      apply (Hnew c ua); [|exact Hc].
      rewrite <- Hrest. left. reflexivity.
    + cbn [app] in Hrest. inversion Hrest; subst c'.
      apply (Hold pre c l ua Hcalls Hc).
  - (* the call lies in [cs] *)
    rewrite Hpre. apply in_or_app. left.
    apply (Hnew c ua); [|exact Hc].
    rewrite Hcs. apply in_or_app. right. left. reflexivity.
Qed.

Lemma connect_calls_need_no_start : forall w c ua,
  In c (connect_calls w) -> needs_start c = Some ua -> False.
Proof.
  intros w c ua Hin Hc. unfold connect_calls in Hin. simpl in Hin.
  repeat (destruct Hin as [Hin | Hin]; [subst c; discriminate Hc|]).
  contradiction.
Qed.

Lemma step_held_ua_started : forall i w,
  held_ua_started w -> held_ua_started (step i w).
Proof.
  intros i w [Href Hord].
  destruct (step_calls_cases i w) as (cs & Hcs & Horigin).
  split.
  - intros ua Hua. rewrite Hcs. rewrite step_ua_ref in Hua.
    apply in_or_app.
    assert (Hkept : uaRef w = Some ua -> In (UAStart ua) (engine w) \/ In (UAStart ua) cs)
      by (intros H; left; apply Href; exact H).
    destruct i as [v|v|v|v|v| |o| | | |digit|e|e|e]; try (apply Hkept; exact Hua).
    destruct o; try (apply Hkept; exact Hua).
    destruct (credentials_present w) eqn:Hcred; [|apply Hkept; exact Hua].
    inversion Hua; subst ua. right.
    cbn [step] in Hcs. rewrite (connect_built w Hcred) in Hcs. cbn [engine] in Hcs.
    apply app_inv_head in Hcs. rewrite <- Hcs.
    unfold connect_calls. simpl. do 8 right. left. reflexivity.
  - rewrite Hcs. apply starts_come_first_extend; [exact Hord|].
    intros c ua Hin Hc.
    destruct (Horigin c Hin) as [Hheld | [Hnew | [Hua | Hconn]]].
    + destruct Hheld as (s & _ & [Hc' | (d & Hc')]); subst c; discriminate Hc.
    + destruct Hnew as (s & ev & _ & Hc'). subst c. discriminate Hc.
    + destruct Hua as (ua' & Hua & [Hc' | (_ & _ & Hc')]); subst c;
        inversion Hc; subst ua'; apply Href; exact Hua.
    + destruct Hconn as (o & _ & _ & Hc').
      exfalso. eapply connect_calls_need_no_start; eassumption.
Qed.

(** X6.  In every run of the component from its initial state, the user
    agent held has been started, and every stop and every outbound call on
    a user agent comes after the start of that same user agent in the
    record of engine calls. *)
Theorem ua_calls_follow_start :
  forall inputs : list Input,
    (forall ua, uaRef (run inputs initial) = Some ua ->
       In (UAStart ua) (engine (run inputs initial))) /\
    (forall pre c post ua,
       engine (run inputs initial) = pre ++ c :: post ->
       needs_start c = Some ua ->
       In (UAStart ua) pre).
Proof.
  intros inputs.
  assert (H : forall w, held_ua_started w -> held_ua_started (run inputs w)).
  { induction inputs as [|i rest IH]; intros w Hw; cbn [run].
    - exact Hw.
    - apply IH. apply step_held_ua_started. exact Hw. }
  apply (H initial). split.
  - intros ua Hua. discriminate Hua.
  - intros pre c post ua Heq _. cbn [engine initial] in Heq.
    destruct pre; discriminate Heq.
Qed.

Lemma ua_calls_follow_start_witness :
  uaRef (run (online_inputs ++ [ClickCall returns; ClickDisconnect returns returns]) initial) = Some 0 /\
  In (UAStart 0) (engine (run (online_inputs ++ [ClickCall returns; ClickDisconnect returns returns]) initial)) /\
  needs_start (UAStop 0) = Some 0 /\
  In (UAStart 0)
     (firstn 10 (engine (run (online_inputs ++ [ClickCall returns; ClickDisconnect returns returns]) initial))).
Proof.
  assert (Hua : uaRef (run (online_inputs ++ [ClickCall returns; ClickDisconnect returns returns]) initial)
                = Some 0) by (vm_compute; reflexivity).
  assert (Hsplit : engine (run (online_inputs ++ [ClickCall returns; ClickDisconnect returns returns]) initial)
                   = firstn 10 (engine (run (online_inputs ++ [ClickCall returns; ClickDisconnect returns returns])
                                            initial))
                     ++ UAStop 0 :: [])
    by (vm_compute; reflexivity).
  assert (Hneeds : needs_start (UAStop 0) = Some 0) by reflexivity.
  destruct (ua_calls_follow_start (online_inputs ++ [ClickCall returns; ClickDisconnect returns returns]))
    as [Hheld Horder].
  split; [exact Hua|]. split; [exact (Hheld 0 Hua)|].
  split; [exact Hneeds | exact (Horder _ _ _ 0 Hsplit Hneeds)].
Defined.

(** ** How the log grows *)

Lemma step_log_shape : forall i w,
  List.length (logEntries w) <= log_capacity ->
  exists newest_first,
    List.length newest_first <= handlers_run i /\
    logEntries (step i w) =
      firstn log_capacity (newest_first ++ logEntries w).
Proof.
  intros i w Hw.
  destruct (fire_log_shape (delivered i w) w Hw) as (ms & Hlen & Hlog).
  pose proof (delivered_within_replies i w) as Hd.
  destruct (step_log_via_events i w) as [Hsame | [(m & Hm) Hle]].
  - exists ms. split; [lia | rewrite Hsame; exact Hlog].
  - exists (m :: ms). split.
    + unfold handlers_run. cbn [List.length]. lia.
    + rewrite Hm, Hlog. apply log_shape_cons.
Qed.

Lemma step_log_cases : forall i w,
  reply_events i = [] ->
  logEntries (step i w) = logEntries w \/
  exists message,
    logEntries (step i w) = addLog_entries message (logEntries w).
Proof.
  intros i w Hq.
  destruct (step_log_via_events i w) as [Hsame | [(m & Hm) Hle]].
  - rewrite Hsame.
    destruct i as [v|v|v|v|v| |o|rt rs|r|r|digit|e|e|e];
      try (left; reflexivity);
      try (apply (on_engine_event_log _ w)).
    + cbn [reply_events] in Hq. apply app_eq_nil in Hq. destruct Hq as [Ht Hs].
      cbn [delivered]. unfold cleanup_events. rewrite Ht, Hs.
      left. destruct (activeSessionRef w), (terminate_raises rt w), (uaRef w);
        reflexivity.
    + cbn [reply_events] in Hq. cbn [delivered]. rewrite Hq.
      left. destruct (dial_reaches_engine w); reflexivity.
    + cbn [reply_events] in Hq. cbn [delivered]. rewrite Hq.
      left. destruct (activeSessionRef w); reflexivity.
  - rewrite Hq in Hle. cbn [List.length] in Hle.
    destruct (delivered i w) as [|e rest]; [|cbn [List.length] in Hle; lia].
    right. exists m. exact Hm.
Qed.

Lemma run_log_shape : forall inputs w,
  List.length (logEntries w) <= log_capacity ->
  exists newest_first,
    List.length newest_first <= handlers_run_in inputs /\
    logEntries (run inputs w) =
      firstn log_capacity (newest_first ++ logEntries w).
Proof.
  induction inputs as [|i rest IH]; intros w Hw.
  - exists []. split; [cbn; lia|].
    cbn [run app]. symmetry. apply firstn_all2. exact Hw.
  - cbn [run handlers_run_in].
    destruct (IH (step i w) (step_log_bounded i w Hw)) as (ms & Hlen & Hlog).
    destruct (step_log_shape i w Hw) as (ms' & Hlen' & Hlog').
    exists (ms ++ ms'). split.
    + rewrite length_app. lia.
    + rewrite Hlog, Hlog', firstn_app_firstn, <- app_assoc. reflexivity.
Qed.

Lemma log_shape_keeps_entries : forall (ms l : list string),
  l <> [] -> firstn log_capacity (ms ++ l) <> [].
Proof.
  intros ms l Hne. unfold log_capacity.
  destruct ms as [|m ms]; cbn [app firstn].
  - destruct l; [congruence | discriminate].
  - discriminate.
Qed.

(** X7.  No handler clears or rewrites the log.  Every handler that runs
    puts at most one message in front of the log: an input whose replies
    fire no event leaves the log as it was or adds exactly one entry, and in
    general an input adds at most one entry for itself and one for each
    event fired inside its replies.  So after a run the log is the most
    recent 20 of these new messages followed by the entries held before; a
    log that holds an entry is never empty again. *)
Theorem log_grows_one_entry_at_a_time :
  forall (inputs : list Input) (w : World),
    List.length (logEntries w) <= 20 ->
    (forall i, reply_events i = [] ->
               logEntries (step i w) = logEntries w \/
               exists message,
                 logEntries (step i w) = addLog_entries message (logEntries w)) /\
    (forall i, exists newest_first,
       List.length newest_first <= handlers_run i /\
       logEntries (step i w) = firstn 20 (newest_first ++ logEntries w)) /\
    (exists newest_first,
       List.length newest_first <= handlers_run_in inputs /\
       logEntries (run inputs w) = firstn 20 (newest_first ++ logEntries w)) /\
    (logEntries w <> [] -> logEntries (run inputs w) <> []).
Proof.
  intros inputs w Hw. split; [|split; [|split]].
  - intros i. apply step_log_cases.
  - intros i. apply step_log_shape. exact Hw.
  - apply run_log_shape. exact Hw.
  - intros Hne.
    destruct (run_log_shape inputs w Hw) as (ms & _ & Hlog).
    rewrite Hlog. apply log_shape_keeps_entries. exact Hne.
Qed.

Lemma log_grows_one_entry_at_a_time_witness :
  List.length (logEntries online) <= 20 /\
  logEntries online <> [] /\
  logEntries (run [ClickCall (announces 1); ClickKey "1";
                   ClickDisconnect rejected_inside returns] online) <> [].
Proof.
  assert (Hb : List.length (logEntries online) <= 20) by (vm_compute; lia).
  assert (Hne : logEntries online <> []) by (vm_compute; discriminate).
  destruct (log_grows_one_entry_at_a_time
              [ClickCall (announces 1); ClickKey "1";
               ClickDisconnect rejected_inside returns] online Hb)
    as (_ & _ & _ & Hkeep).
  split; [exact Hb|]. split; [exact Hne | exact (Hkeep Hne)].
Defined.

(** ** When dialing is possible *)

(** X8.  dial is rejected, with the log entry that asks to connect first
    and no call on the engine, right after each of: a connect with
    credentials (whether the engine built the transport or raised, and even
    if the connection was registered before), a disconnect whose terminate
    and stop calls returned, the transport-down event, and a registration
    failure. *)
Theorem dial_rejected_after_going_offline :
  forall (r : Reply) (w : World),
    (forall o, credentials_present w = true ->
       dial r (connect o w) =
         addLog "Connect to the SIP server first." (connect o w)) /\
    (forall rt rs, thrown rt = None -> thrown rs = None ->
       dial r (disconnect rt rs w) =
         addLog "Connect to the SIP server first." (disconnect rt rs w)) /\
    dial r (ua_disconnected w) =
      addLog "Connect to the SIP server first." (ua_disconnected w) /\
    (forall cause,
       dial r (ua_registrationFailed cause w) =
         addLog "Connect to the SIP server first." (ua_registrationFailed cause w)) /\
    (forall w', engine (addLog "Connect to the SIP server first." w') = engine w').
Proof.
  intros r w. split; [|split; [|split; [|split]]].
  - intros o Hcred. apply dial_offline. apply connect_not_connected. exact Hcred.
  - intros rt rs Ht Hs. apply dial_offline. rewrite disconnect_world.
    rewrite (cleanup_completes_returns rt rs w Ht Hs). reflexivity.
  - apply dial_offline. reflexivity.
  - intros cause. apply dial_offline. reflexivity.
  - intros w'. reflexivity.
Qed.

Lemma dial_rejected_after_going_offline_witness :
  credentials_present registered_world = true /\
  isConnected registered_world = true /\
  dial (announces 1) (connect Built registered_world) =
    addLog "Connect to the SIP server first." (connect Built registered_world) /\
  thrown returns = None /\
  dial (announces 1) (disconnect returns returns registered_world) =
    addLog "Connect to the SIP server first."
      (disconnect returns returns registered_world).
Proof.
  assert (Hcred : credentials_present registered_world = true)
    by (vm_compute; reflexivity).
  destruct (dial_rejected_after_going_offline (announces 1) registered_world)
    as (Hconn & Hdisc & _).
  split; [exact Hcred|]. split; [vm_compute; reflexivity|].
  split; [exact (Hconn Built Hcred)|]. split; [reflexivity|].
  exact (Hdisc returns returns eq_refl eq_refl).
Defined.

(** X9.  After the connected, the registered and also the unregistered
    event the connection is usable: with a transport held and a non-empty
    number, a dial right after the event asks the engine for an outbound
    session, whatever the engine then does.  Losing the registration alone
    does not block dialing. *)
Theorem dial_accepted_after_usable_event :
  forall (r : Reply) (w : World) (ua : UA) (e : UAEvent),
    uaRef w = Some ua -> number w <> "" ->
    e = ev_connected \/ e = ev_registered \/ e = ev_unregistered ->
    isConnected (on_ua_event e w) = true /\
    engine (dial r (on_ua_event e w)) =
      engine w ++ UACall ua (number w) dial_options
                   :: subscriptions_of (fired r).
Proof.
  intros r w ua e Hua Hn He.
  assert (Hc : isConnected (on_ua_event e w) = true).
  { destruct He as [He | [He | He]]; subst e; reflexivity. }
  split; [exact Hc|].
  assert (Hw : uaRef (on_ua_event e w) = Some ua /\
               number (on_ua_event e w) = number w /\
               engine (on_ua_event e w) = engine w).
  { destruct w as [ws sip dn pw st cs num lg ua0 ses eng nxt].
    cbn [uaRef] in Hua. subst ua0.
    destruct He as [He | [He | He]]; subst e; repeat split. }
  destruct Hw as (Hua' & Hn' & He').
  rewrite (dial_accepted r (on_ua_event e w) ua Hua' Hc)
    by (rewrite Hn'; exact Hn).
  cbn [engine]. rewrite Hn', He'. reflexivity.
Qed.

Lemma dial_accepted_after_usable_event_witness :
  uaRef online = Some 0 /\
  number online <> "" /\
  engine (dial (announces 1) (on_ua_event ev_unregistered online)) =
    engine online ++ UACall 0 (number online) dial_options
                      :: subscriptions_of (fired (announces 1)).
Proof.
  assert (Hua : uaRef online = Some 0) by (vm_compute; reflexivity).
  assert (Hn : number online <> "") by (vm_compute; discriminate).
  destruct (dial_accepted_after_usable_event (announces 1) online 0
              ev_unregistered Hua Hn (or_intror (or_intror eq_refl)))
    as [_ Hcall].
  split; [exact Hua|]. split; [exact Hn | exact Hcall].
Defined.

(** ** The cleanup on unmount *)

(** X10.  The cleanup run when the component is unmounted makes the same
    calls on the engine as disconnect, for the same replies of the engine:
    terminate on the held session, then, unless terminate raised, stop on
    the held user agent.  The cleanup itself sets no state and logs
    nothing: the state after it is the one left by the handlers of the
    events fired inside the two calls, and with nothing held it changes
    nothing. *)
Theorem unmount_calls_like_disconnect :
  forall (rt rs : Reply) (w : World),
    engine (unmount rt rs w) = engine (disconnect rt rs w) /\
    engine (unmount rt rs w) = engine w ++ cleanup_calls rt rs w /\
    state_agrees (unmount rt rs w) (fire (cleanup_events rt rs w) w) /\
    (fired rt = [] -> fired rs = [] -> state_agrees (unmount rt rs w) w) /\
    (terminate_raises rt w = true ->
       forall ua, ~ In (UAStop ua) (calls_since w (unmount rt rs w))) /\
    uaRef (unmount rt rs w) = uaRef w /\
    (uaRef w = None -> activeSessionRef w = None -> unmount rt rs w = w).
Proof.
  intros rt rs w. rewrite unmount_world, disconnect_world.
  split; [reflexivity|]. split; [reflexivity|]. split; [repeat split|].
  split; [|split; [|split]].
  - intros Ht Hs. unfold cleanup_events. rewrite Ht, Hs.
    destruct (activeSessionRef w), (terminate_raises rt w), (uaRef w);
      repeat split.
  - intros Hraise ua Hin.
    rewrite (calls_since_app w _ (cleanup_calls rt rs w)) in Hin
      by reflexivity.
    unfold cleanup_calls in Hin. rewrite Hraise, app_nil_r in Hin.
    destruct (activeSessionRef w); [|destruct Hin].
    destruct Hin as [Hin | Hin]; [discriminate Hin|].
    destruct (subscriptions_origin _ _ Hin) as (s & ev & _ & Hcall).
    discriminate Hcall.
  - reflexivity.
  - intros Hua Hs.
    destruct (cleanup_nothing_held rt rs w Hua Hs) as (_ & He & Hcalls).
    rewrite He, Hcalls, app_nil_r. cbn [fire skip last_session].
    destruct w as [ws sip dn pw st cs num lg ua ses eng nxt]. reflexivity.
Qed.

Lemma unmount_calls_like_disconnect_witness :
  terminate_raises (raises "Invalid status: 8") failed_call_world = true /\
  ~ In (UAStop 0)
       (calls_since failed_call_world
          (unmount (raises "Invalid status: 8") returns failed_call_world)) /\
  uaRef initial = None /\ activeSessionRef initial = None /\
  unmount (raises "x") (raises "y") initial = initial.
Proof.
  assert (Hr : terminate_raises (raises "Invalid status: 8") failed_call_world
               = true) by (vm_compute; reflexivity).
  destruct (unmount_calls_like_disconnect (raises "Invalid status: 8") returns
              failed_call_world) as (_ & _ & _ & _ & Hnostop & _).
  destruct (unmount_calls_like_disconnect (raises "x") (raises "y") initial)
    as (_ & _ & _ & _ & _ & _ & Hnone).
  split; [exact Hr|]. split; [exact (Hnostop Hr 0)|].
  split; [reflexivity|]. split; [reflexivity | exact (Hnone eq_refl eq_refl)].
Defined.

(** ** The two sets of session handlers *)

(** X11.  For each session event, the callback carried by the options of
    dial and the handler installed when the session was announced set the
    same call state, which depends on the event alone, and make no call on
    the engine.  They differ in the log: the installed handler logs every
    event, the callback of dial logs only a failure, so when both run for a
    failure the same message is logged twice. *)
Theorem session_handlers_agree :
  forall (e : SessionEvent) (w : World),
    callState (on_call_event e w) = call_state_of_event e /\
    callState (on_session_event e w) = call_state_of_event e /\
    callState (on_session_event e (on_call_event e w)) = call_state_of_event e /\
    engine (on_session_event e (on_call_event e w)) = engine w /\
    (exists message,
       logEntries (on_session_event e w) =
         addLog_entries message (logEntries w)) /\
    logEntries (on_call_event e w) =
      match e with
      | ev_failed cause =>
          addLog_entries ("Call failed: " ++ or_unknown cause) (logEntries w)
      | _ => logEntries w
      end /\
    (forall cause,
       logEntries (on_session_event (ev_failed cause)
                     (on_call_event (ev_failed cause) w)) =
         addLog_entries ("Call failed: " ++ or_unknown cause)
           (addLog_entries ("Call failed: " ++ or_unknown cause) (logEntries w))).
Proof.
  intros e w.
  destruct w as [ws sip dn pw st cs num lg ua ses eng nxt].
  split; [destruct e; reflexivity|].
  split; [destruct e; reflexivity|].
  split; [destruct e; reflexivity|].
  split; [destruct e; reflexivity|].
  split; [destruct e; eexists; reflexivity|].
  split; [destruct e; reflexivity|].
  intros cause. reflexivity.
Qed.

(** ** A sequence of key presses *)

Lemma keys_number : forall digits w,
  String.length (number w) <= number_capacity ->
  number (run (map ClickKey digits) w) =
    slice_string number_capacity (number w ++ concat_strings digits).
Proof.
  induction digits as [|d rest IH]; intros w Hw.
  - cbn [map run concat_strings fold_right]. rewrite append_empty_r.
    symmetry. apply slice_string_short. exact Hw.
  - cbn [map run step]. rewrite IH.
    + rewrite handleKeypad_world. cbn [number].
      rewrite slice_string_app_slice, append_assoc. reflexivity.
    + rewrite handleKeypad_world. cbn [number]. apply slice_string_length.
Qed.

Lemma keys_engine : forall digits w,
  engine (run (map ClickKey digits) w) =
    engine w ++ match activeSessionRef w with
                | Some session => map (SessionSendDTMF session) digits
                | None => []
                end.
Proof.
  induction digits as [|d rest IH]; intros w.
  - cbn [map run]. destruct (activeSessionRef w); rewrite app_nil_r; reflexivity.
  - cbn [map run step]. rewrite IH, handleKeypad_world.
    cbn [engine activeSessionRef].
    destruct (activeSessionRef w); rewrite <- app_assoc; reflexivity.
Qed.

(** X12.  Pressing a sequence of keys appends them to the number and keeps
    its first 32 characters: keys pressed once the number is full are lost
    to the number.  Every key pressed, whether it fitted or not, is sent as
    DTMF to the held session, in the order pressed; with no session held
    nothing is sent.  A key pressed after a longer number was typed into the
    field cuts the number to 32 characters. *)
Theorem keypad_sequence :
  forall (digits : list string) (w : World),
    (String.length (number w) <= 32 ->
       number (run (map ClickKey digits) w) =
         slice_string 32 (number w ++ concat_strings digits)) /\
    (forall session, activeSessionRef w = Some session ->
       engine (run (map ClickKey digits) w) =
         engine w ++ map (SessionSendDTMF session) digits) /\
    (activeSessionRef w = None ->
       engine (run (map ClickKey digits) w) = engine w) /\
    (forall typed digit,
       number (handleKeypad digit (step (TypeNumber typed) w)) =
         slice_string 32 (typed ++ digit)).
Proof.
  intros digits w. split; [|split; [|split]].
  - apply keys_number.
  - intros session Hs. rewrite keys_engine, Hs. reflexivity.
  - intros Hs. rewrite keys_engine, Hs. apply app_nil_r.
  - intros typed digit. rewrite handleKeypad_world. reflexivity.
Qed.

Lemma keypad_sequence_witness :
  String.length (number full_number_in_call) <= 32 /\
  activeSessionRef full_number_in_call = Some 4 /\
  number (run (map ClickKey ["1"; "#"]) full_number_in_call) =
    slice_string 32 (number full_number_in_call ++ concat_strings ["1"; "#"]) /\
  engine (run (map ClickKey ["1"; "#"]) full_number_in_call) =
    engine full_number_in_call ++ map (SessionSendDTMF 4) ["1"; "#"] /\
  engine (run (map ClickKey ["1"; "#"]) initial) = engine initial.
Proof.
  assert (Hlen : String.length (number full_number_in_call) <= 32)
    by (vm_compute; lia).
  assert (Hs : activeSessionRef full_number_in_call = Some 4)
    by (vm_compute; reflexivity).
  destruct (keypad_sequence ["1"; "#"] full_number_in_call) as (Hnum & Hsend & _).
  destruct (keypad_sequence ["1"; "#"] initial) as (_ & _ & Hnone & _).
  split; [exact Hlen|]. split; [exact Hs|].
  split; [exact (Hnum Hlen)|]. split; [exact (Hsend 4 Hs) | exact (Hnone eq_refl)].
Defined.

(** ** The rendered view *)

(** X13.  Once a session handle is held, every later render offers the
    Hang up button and never the Call button, whatever happened to the
    session in between.  Once a transport handle is held, the Disconnect
    button is enabled in every later render.  Once the log holds an entry,
    every later render lists the log, with at most 20 entries, and never
    the notice that there are no events. *)
Theorem view_buttons_persist :
  forall (title : option string) (inputs : list Input) (w : World),
    (activeSessionRef w <> None ->
       action_button (render title (run inputs w)) = HangUpButton) /\
    (uaRef w <> None ->
       disconnect_disabled (render title (run inputs w)) = false) /\
    (logEntries w <> [] -> List.length (logEntries w) <= 20 ->
       exists entries,
         log_panel (render title (run inputs w)) = LogList entries /\
         entries <> [] /\ List.length entries <= 20).
Proof.
  intros title inputs w. split; [|split].
  - intros Hs. pose proof (run_keeps_session inputs w Hs) as Hrun.
    cbn [render action_button].
    destruct (activeSessionRef (run inputs w)); [reflexivity | congruence].
  - intros Hua. pose proof (run_keeps_ua inputs w Hua) as Hrun.
    cbn [render disconnect_disabled].
    destruct (uaRef (run inputs w)); [reflexivity | congruence].
  - intros Hne Hb.
    pose proof (run_log_bounded inputs w Hb) as Hbound.
    destruct (run_log_shape inputs w Hb) as (ms & _ & Hlog).
    assert (Hrun : logEntries (run inputs w) <> []).
    { rewrite Hlog. apply log_shape_keeps_entries. exact Hne. }
    cbn [render log_panel].
    destruct (logEntries (run inputs w)) as [|m l] eqn:Hl; [congruence|].
    exists (m :: l). split; [reflexivity|]. split; [discriminate | exact Hbound].
Qed.

Lemma view_buttons_persist_witness :
  activeSessionRef ringing_world <> None /\
  action_button
    (render None (run persist_inputs ringing_world))
    = HangUpButton /\
  uaRef ringing_world <> None /\
  disconnect_disabled
    (render None (run persist_inputs ringing_world))
    = false /\
  logEntries ringing_world <> [] /\
  List.length (logEntries ringing_world) <= 20 /\
  exists entries,
    log_panel
      (render None (run persist_inputs ringing_world))
      = LogList entries /\ entries <> [] /\ List.length entries <= 20.
Proof.
  assert (Hs : activeSessionRef ringing_world <> None) by (vm_compute; discriminate).
  assert (Hua : uaRef ringing_world <> None) by (vm_compute; discriminate).
  assert (Hne : logEntries ringing_world <> []) by (vm_compute; discriminate).
  assert (Hb : List.length (logEntries ringing_world) <= 20) by (vm_compute; lia).
  destruct (view_buttons_persist None
              persist_inputs ringing_world)
    as (Hhang & Hdisc & Hlog).
  split; [exact Hs|]. split; [exact (Hhang Hs)|].
  split; [exact Hua|]. split; [exact (Hdisc Hua)|].
  split; [exact Hne|]. split; [exact Hb | exact (Hlog Hne Hb)].
Defined.

Lemma page_run_consistent : forall title pis p,
  page_consistent p -> admissible title pis p = true ->
  page_consistent (page_run pis p).
Proof.
  intros title. induction pis as [|pi rest IH]; intros p Hp Hadm.
  - exact Hp.
  - cbn [admissible] in Hadm. apply andb_prop in Hadm.
    destruct Hadm as [Hposs Hrest]. cbn [page_run].
    apply IH; [|exact Hrest].
    apply (page_step_consistent title); assumption.
Qed.

(** X14.  What the buttons on screen tell, in every run in which each click
    is on a button on screen.  The view on screen is the last render, and
    writing a reference renders nothing, so the buttons show the two
    handles as they were then.  When Hang up is on screen a session handle
    is held, and hangup asks the engine to terminate that session.  When
    Disconnect is enabled on screen a transport handle is held.  When the
    page has been rendered since the state last changed and its Call button
    is disabled, dial is rejected.  The converse for Call fails: after the
    engine has announced a session and before the next render, Call is on
    screen although a session handle is held. *)
Theorem buttons_on_screen :
  forall (title : option string) (pis : list PageInput),
    admissible title pis initial_page = true ->
    (action_button (shown title (page_run pis initial_page)) = HangUpButton ->
       exists session,
         activeSessionRef (world (page_run pis initial_page)) = Some session /\
         forall r,
           engine (hangup r (world (page_run pis initial_page))) =
             engine (world (page_run pis initial_page)) ++
             SessionTerminate session :: subscriptions_of (fired r)) /\
    (disconnect_disabled (shown title (page_run pis initial_page)) = false ->
       uaRef (world (page_run pis initial_page)) <> None) /\
    (same_state (rendered (page_run pis initial_page))
                (world (page_run pis initial_page)) = true ->
     action_button (shown title (page_run pis initial_page)) = CallButton true ->
       forall r,
         dial r (world (page_run pis initial_page)) =
           addLog "Connect to the SIP server first."
                  (world (page_run pis initial_page))) /\
    (admissible title announced_unrendered_inputs initial_page = true /\
     action_button (shown title (page_run announced_unrendered_inputs initial_page))
       = CallButton false /\
     activeSessionRef (world (page_run announced_unrendered_inputs initial_page))
       = Some 1).
Proof.
  intros title pis Hadm.
  pose proof (page_run_consistent title pis initial_page
                initial_page_consistent Hadm) as (_ & _ & Hs & Hu).
  remember (page_run pis initial_page) as p eqn:Hp. clear Hp Hadm.
  split; [|split; [|split]].
  - intros Hb. unfold shown in Hb. cbn [render action_button] in Hb.
    assert (Hheld : activeSessionRef (world p) <> None).
    { apply Hs. destruct (activeSessionRef (rendered p)); [discriminate|].
      discriminate Hb. }
    destruct (activeSessionRef (world p)) as [s|] eqn:Hw; [|congruence].
    exists s. split; [reflexivity|].
    intros r. rewrite (hangup_world r (world p) s Hw). reflexivity.
  - intros Hd. unfold shown in Hd. cbn [render disconnect_disabled] in Hd.
    apply Hu. destruct (uaRef (rendered p)); [discriminate | discriminate Hd].
  - intros Hsame Hb r. apply dial_offline.
    destruct (same_state_callState _ _ Hsame) as [_ Hst].
    unfold shown in Hb. cbn [render action_button] in Hb.
    destruct (activeSessionRef (rendered p)); [discriminate Hb|].
    unfold isConnected in *. rewrite <- Hst.
    destruct (status (rendered p)); try reflexivity; discriminate Hb.
  - destruct title; vm_compute; repeat split.
Qed.

Lemma buttons_on_screen_witness :
  admissible None first_call_inputs initial_page = true /\
  action_button (shown None (page_run first_call_inputs initial_page))
    = HangUpButton /\
  (exists session,
     activeSessionRef (world (page_run first_call_inputs initial_page))
       = Some session /\
     forall r,
       engine (hangup r (world (page_run first_call_inputs initial_page))) =
         engine (world (page_run first_call_inputs initial_page)) ++
         SessionTerminate session :: subscriptions_of (fired r)) /\
  disconnect_disabled (shown None (page_run first_call_inputs initial_page))
    = false /\
  uaRef (world (page_run first_call_inputs initial_page)) <> None.
Proof.
  assert (Hadm : admissible None first_call_inputs initial_page = true)
    by (vm_compute; reflexivity).
  assert (Hb : action_button (shown None (page_run first_call_inputs initial_page))
               = HangUpButton) by (vm_compute; reflexivity).
  assert (Hd : disconnect_disabled
                 (shown None (page_run first_call_inputs initial_page)) = false)
    by (vm_compute; reflexivity).
  destruct (buttons_on_screen None first_call_inputs Hadm)
    as (Hhang & Hdisc & _).
  split; [exact Hadm|]. split; [exact Hb|]. split; [exact (Hhang Hb)|].
  split; [exact Hd | exact (Hdisc Hd)].
Defined.

(** X15.  The text of the status pill never contains a hyphen: replacing
    the first hyphen of the name of the connection state by a space removes
    the only one there is, and keeps the length of the name.  The text is
    the name itself for every state but registration-failed. *)
Theorem status_pill_text_has_no_hyphen :
  forall (title : option string) (w : World),
    has_hyphen (status_pill_text (render title w)) = false /\
    String.length (status_pill_text (render title w)) =
      String.length (status_name (status w)) /\
    (status w <> registration_failed ->
       status_pill_text (render title w) = status_name (status w)) /\
    (status w = registration_failed ->
       status_pill_text (render title w) = "registration failed").
Proof.
  intros title w. cbn [render status_pill_text].
  destruct (status w); repeat split; try reflexivity;
    intros H; try discriminate H; congruence.
Qed.

Lemma status_pill_text_has_no_hyphen_witness :
  status (ua_registrationFailed None initial) = registration_failed /\
  status_pill_text (render None (ua_registrationFailed None initial)) =
    "registration failed" /\
  status initial <> registration_failed /\
  status_pill_text (render None initial) = status_name (status initial).
Proof.
  assert (Hf : status (ua_registrationFailed None initial) = registration_failed)
    by reflexivity.
  assert (Hd : status initial <> registration_failed) by discriminate.
  destruct (status_pill_text_has_no_hyphen None (ua_registrationFailed None initial))
    as (_ & _ & _ & Hfailed).
  destruct (status_pill_text_has_no_hyphen None initial) as (_ & _ & Hname & _).
  split; [exact Hf|]. split; [exact (Hfailed Hf)|].
  split; [exact Hd | exact (Hname Hd)].
Defined.

(** ** The password starts empty *)

Lemma step_without_password : forall i w,
  edits_credentials i = false ->
  password w = "" -> uaRef w = None ->
  (forall c, In c (engine w) -> is_session_call c = true) ->
  password (step i w) = "" /\ uaRef (step i w) = None /\
  (forall c, In c (engine (step i w)) -> is_session_call c = true).
Proof.
  intros i w Hi Hp Hua Heng.
  pose proof (empty_password_no_credentials w Hp) as Hcred.
  split; [rewrite (step_password i w Hi); exact Hp|]. split.
  - rewrite step_ua_ref.
    destruct i as [v|v|v|v|v| |o| | | |digit|e|e|e]; try exact Hua.
    destruct o; try exact Hua. rewrite Hcred. exact Hua.
  - destruct (step_calls_cases i w) as (cs & Hcs & Horigin).
    intros c Hin. rewrite Hcs in Hin.
    apply in_app_or in Hin. destruct Hin as [Hin | Hin]; [apply Heng; exact Hin|].
    destruct (Horigin c Hin) as [Hheld | [Hnew | [Hheldua | Hconn]]].
    + destruct Hheld as (s & _ & [Hc | (d & Hc)]); subst c; reflexivity.
    + destruct Hnew as (s & ev & _ & Hc). subst c. reflexivity.
    + destruct Hheldua as (ua & Hheldua & _). congruence.
    + destruct Hconn as (o & _ & Hc & _). congruence.
Qed.

(** X16.  The password field starts empty, so until a password is typed
    every connect is turned down by the check of the credentials: no
    transport handle is ever held and the engine sees no socket, no user
    agent, no start, stop or outbound call; a dial in such a run is
    rejected. *)
Theorem no_transport_without_password :
  forall inputs : list Input,
    forallb (fun i => negb (edits_credentials i)) inputs = true ->
    password (run inputs initial) = "" /\
    uaRef (run inputs initial) = None /\
    (forall c, In c (engine (run inputs initial)) -> is_session_call c = true) /\
    (forall o, connect o (run inputs initial) =
               addLog missing_credentials_message (run inputs initial)) /\
    (forall r, dial r (run inputs initial) =
               addLog "Connect to the SIP server first." (run inputs initial)).
Proof.
  intros inputs Hin.
  assert (H : forall w,
             password w = "" -> uaRef w = None ->
             (forall c, In c (engine w) -> is_session_call c = true) ->
             password (run inputs w) = "" /\ uaRef (run inputs w) = None /\
             (forall c, In c (engine (run inputs w)) -> is_session_call c = true)).
  { induction inputs as [|i rest IH]; intros w Hp Hua Heng.
    - repeat split; assumption.
    - cbn [forallb] in Hin. apply andb_prop in Hin. destruct Hin as [Hi Hrest].
      apply negb_true_iff in Hi. cbn [run].
      destruct (step_without_password i w Hi Hp Hua Heng) as (Hp' & Hua' & Heng').
      apply (IH Hrest _ Hp' Hua' Heng'). }
  destruct (H initial eq_refl eq_refl (fun c (F : In c []) => match F with end))
    as (Hp & Hua & Heng).
  split; [exact Hp|]. split; [exact Hua|]. split; [exact Heng|]. split.
  - intros o. apply connect_without_credentials.
    apply empty_password_no_credentials. exact Hp.
  - intros r. unfold dial. rewrite Hua. reflexivity.
Qed.

Lemma no_transport_without_password_witness :
  forallb (fun i => negb (edits_credentials i))
    [TypeWsUri "wss://x"; ClickConnect Built; UAFires ev_connected;
     TypeNumber "555"; ClickCall returns;
     ClickDisconnect returns returns] = true /\
  uaRef (run [TypeWsUri "wss://x"; ClickConnect Built; UAFires ev_connected;
              TypeNumber "555"; ClickCall returns;
     ClickDisconnect returns returns] initial) = None.
Proof.
  assert (Hin : forallb (fun i => negb (edits_credentials i))
            [TypeWsUri "wss://x"; ClickConnect Built; UAFires ev_connected;
             TypeNumber "555"; ClickCall returns;
     ClickDisconnect returns returns] = true)
    by reflexivity.
  destruct (no_transport_without_password _ Hin) as (_ & Hua & _).
  split; [exact Hin | exact Hua].
Defined.

(** ** The cause of a failure *)

(** X17.  The cause shown for a failure is never empty: a cause that is
    missing or is the empty string is shown as unknown, any other cause is
    shown as it is.  The registration failure handler and both call failure
    handlers log their message with that cause. *)
Theorem failure_cause_defaults_to_unknown :
  forall (cause : option string) (w : World),
    or_unknown cause <> "" /\
    (cause = None \/ cause = Some "" -> or_unknown cause = "unknown") /\
    (forall c, c <> "" -> cause = Some c -> or_unknown cause = c) /\
    logEntries (ua_registrationFailed cause w) =
      addLog_entries ("Registration failed: " ++ or_unknown cause) (logEntries w) /\
    logEntries (session_failed cause w) =
      addLog_entries ("Call failed: " ++ or_unknown cause) (logEntries w) /\
    logEntries (dial_failed cause w) =
      addLog_entries ("Call failed: " ++ or_unknown cause) (logEntries w).
Proof.
  intros cause w. split; [|split; [|split; [|split; [|split]]]];
    try reflexivity.
  - destruct cause as [[|ch c]|]; cbn; discriminate.
  - intros [H | H]; subst cause; reflexivity.
  - intros c Hc H. subst cause. destruct c; [congruence | reflexivity].
Qed.

Lemma failure_cause_defaults_to_unknown_witness :
  or_unknown (Some "") = "unknown" /\
  or_unknown (Some "Busy") = "Busy".
Proof.
  destruct (failure_cause_defaults_to_unknown (Some "") initial)
    as (_ & Hempty & _).
  destruct (failure_cause_defaults_to_unknown (Some "Busy") initial)
    as (_ & _ & Hgiven & _).
  split; [apply Hempty; right; reflexivity|].
  apply (Hgiven "Busy"); [discriminate | reflexivity].
Defined.

(** ** A user agent that is no longer held *)

Lemma connect_calls_no_stop_or_call : forall w c,
  In c (connect_calls w) -> needs_start c = None.
Proof.
  intros w c Hin. unfold connect_calls in Hin. simpl in Hin.
  repeat (destruct Hin as [Hin | Hin]; [subst c; reflexivity|]).
  contradiction.
Qed.

Lemma run_leaves_replaced_ua : forall inputs w ua,
  ua < nextUA w -> uaRef w <> Some ua ->
  exists cs, engine (run inputs w) = engine w ++ cs /\
             forall c, In c cs -> needs_start c <> Some ua.
Proof.
  induction inputs as [|i rest IH]; intros w ua Hlt Hne.
  - exists []. split; [cbn [run]; rewrite app_nil_r; reflexivity | intros c []].
  - cbn [run].
    assert (Hlt' : ua < nextUA (step i w))
      by (pose proof (step_nextUA i w); lia).
    assert (Hne' : uaRef (step i w) <> Some ua).
    { rewrite step_ua_ref.
      destruct i as [v|v|v|v|v| |o|rt rs|r|r|digit|e|e|e]; try exact Hne.
      destruct o; try exact Hne.
      destruct (credentials_present w); [|exact Hne].
      intros H. inversion H. lia. }
    destruct (IH (step i w) ua Hlt' Hne') as (cs' & Hcs' & Hrest).
    destruct (step_calls_cases i w) as (cs & Hcs & Horigin).
    exists (cs ++ cs'). split.
    + rewrite Hcs', Hcs, app_assoc. reflexivity.
    + intros c Hin. apply in_app_or in Hin. destruct Hin as [Hin | Hin];
        [|apply Hrest; exact Hin].
      destruct (Horigin c Hin) as [Hheld | [Hnew | [Hua | Hconn]]].
      * destruct Hheld as (s & _ & [Hc | (d & Hc)]); subst c; discriminate.
      * destruct Hnew as (s & ev & _ & Hc). subst c. discriminate.
      * destruct Hua as (ua' & Hua & [Hc | (_ & _ & Hc)]); subst c;
          cbn [needs_start]; congruence.
      * destruct Hconn as (o & _ & _ & Hc).
        rewrite (connect_calls_no_stop_or_call w c Hc). discriminate.
Qed.

(** X18.  A user agent that exists but is not the one held is never
    stopped and never used for a call again, whatever follows.  So after a
    connect that replaced a held user agent, the earlier one is never
    stopped: disconnect and the cleanup only reach the one held. *)
Theorem replaced_ua_never_stopped :
  forall (inputs : list Input) (w : World) (ua : UA),
    ua < nextUA w -> uaRef w <> Some ua ->
    forall c, In c (calls_since w (run inputs w)) ->
              c <> UAStop ua /\
              forall target options, c <> UACall ua target options.
Proof.
  intros inputs w ua Hlt Hne c Hin.
  destruct (run_leaves_replaced_ua inputs w ua Hlt Hne) as (cs & Hcs & Hnone).
  rewrite (calls_since_app w (run inputs w) cs Hcs) in Hin.
  specialize (Hnone c Hin). split.
  - intros H. subst c. apply Hnone. reflexivity.
  - intros target options H. subst c. apply Hnone. reflexivity.
Qed.

Lemma replaced_ua_never_stopped_witness :
  uaRef registered_world = Some 0 /\
  0 < nextUA (connect Built registered_world) /\
  uaRef (connect Built registered_world) <> Some 0 /\
  In (UAStop 1)
     (calls_since (connect Built registered_world)
        (run [ClickDisconnect returns returns] (connect Built registered_world))) /\
  UAStop 1 <> UAStop 0.
Proof.
  assert (Hlt : 0 < nextUA (connect Built registered_world)) by (vm_compute; lia).
  assert (Hne : uaRef (connect Built registered_world) <> Some 0)
    by (vm_compute; discriminate).
  assert (Hin : In (UAStop 1)
                  (calls_since (connect Built registered_world)
                     (run [ClickDisconnect returns returns] (connect Built registered_world))))
    by (vm_compute; left; reflexivity).
  destruct (replaced_ua_never_stopped [ClickDisconnect returns returns]
              (connect Built registered_world) 0 Hlt Hne (UAStop 1) Hin)
    as [Hstop _].
  split; [vm_compute; reflexivity|]. split; [exact Hlt|].
  split; [exact Hne|]. split; [exact Hin | exact Hstop].
Defined.

(** ** The idle call state *)

Lemma step_callState : forall i w,
  callState (step i w) = callState w \/ callState (step i w) <> idle.
Proof.
  intros i w.
  destruct (step_callState_via_events i w) as [Hvia | Hterm].
  - rewrite Hvia. apply fire_callState.
  - right. rewrite Hterm. discriminate.
Qed.

(** X19.  No handler sets the call state to idle: idle is the state of a
    freshly mounted component only.  Once the call state has left idle it
    never returns to it.  A session event, the transport-down event, and a
    disconnect whose terminate and stop calls return always leave it
    different from idle; a disconnect that ends on a raise leaves it as it
    was or different from idle. *)
Theorem call_state_never_returns_to_idle :
  forall (inputs : list Input) (w : World),
    (callState w <> idle -> callState (run inputs w) <> idle) /\
    (forall i, callState (step i w) = callState w \/
               callState (step i w) <> idle) /\
    (forall e, callState (on_session_event e w) <> idle /\
               callState (on_call_event e w) <> idle) /\
    (forall rt rs, thrown rt = None -> thrown rs = None ->
       callState (disconnect rt rs w) <> idle) /\
    (forall rt rs, callState (disconnect rt rs w) = callState w \/
                   callState (disconnect rt rs w) <> idle) /\
    callState (ua_disconnected w) <> idle.
Proof.
  intros inputs w. split; [|split; [|split; [|split; [|split]]]].
  - revert w. induction inputs as [|i rest IH]; intros w Hw; cbn [run].
    + exact Hw.
    + apply IH. destruct (step_callState i w) as [Hsame | Hne];
        [rewrite Hsame; exact Hw | exact Hne].
  - intros i. apply step_callState.
  - intros e. split; destruct e; discriminate.
  - intros rt rs Ht Hs. rewrite disconnect_world.
    rewrite (cleanup_completes_returns rt rs w Ht Hs). discriminate.
  - intros rt rs. apply (step_callState (ClickDisconnect rt rs) w).
  - discriminate.
Qed.

Lemma call_state_never_returns_to_idle_witness :
  callState ringing_world <> idle /\
  callState (run [SessionFires ev_ended;
                  ClickDisconnect (raises "Invalid status: 8") returns;
                  ClickConnect Built; UAFires ev_connected] ringing_world)
    <> idle /\
  thrown returns = None /\
  callState (disconnect returns returns initial) <> idle.
Proof.
  assert (Hne : callState ringing_world <> idle) by (vm_compute; discriminate).
  destruct (call_state_never_returns_to_idle
              [SessionFires ev_ended;
               ClickDisconnect (raises "Invalid status: 8") returns;
               ClickConnect Built; UAFires ev_connected] ringing_world)
    as [Hrun _].
  destruct (call_state_never_returns_to_idle [] initial)
    as (_ & _ & _ & Hdisc & _).
  split; [exact Hne|]. split; [exact (Hrun Hne)|].
  split; [reflexivity | exact (Hdisc returns returns eq_refl eq_refl)].
Defined.

(** ** Dialing with the keypad *)

Lemma slice_string_length_min : forall n s,
  String.length (slice_string n s) = Nat.min n (String.length s).
Proof.
  unfold slice_string.
  induction n as [|n IH]; intros s.
  - destruct s; reflexivity.
  - destruct s as [|c s]; simpl; [reflexivity|].
    rewrite IH. reflexivity.
Qed.

Lemma append_length : forall a b : string,
  String.length (a ++ b) = String.length a + String.length b.
Proof.
  induction a as [|c a IH]; intros b; simpl; [reflexivity|].
  rewrite IH. reflexivity.
Qed.

Lemma keypad_keys_length : forall digits,
  (forall d, In d digits -> In d keypad) ->
  String.length (concat_strings digits) = List.length digits.
Proof.
  induction digits as [|d rest IH]; intros Hkeys.
  - reflexivity.
  - cbn [concat_strings fold_right List.length].
    rewrite append_length. fold (concat_strings rest).
    rewrite IH by (intros d' Hd'; apply Hkeys; right; exact Hd').
    assert (Hd : In d keypad) by (apply Hkeys; left; reflexivity).
    unfold keypad in Hd. simpl in Hd.
    repeat (destruct Hd as [Hd | Hd]; [subst d; reflexivity|]).
    contradiction.
Qed.

(** X20.  Each key of the keypad is one character, so after Clear and a
    sequence of presses of keypad keys the number is the concatenation of
    the keys pressed, cut to 32 characters, and its length is the number of
    presses or 32, whichever is smaller. *)
Theorem keypad_dials_one_character_per_key :
  forall (digits : list string) (w : World),
    (forall d, In d digits -> In d keypad) ->
    number (run (ClickClear :: map ClickKey digits) w) =
      slice_string 32 (concat_strings digits) /\
    String.length (number (run (ClickClear :: map ClickKey digits) w)) =
      Nat.min 32 (List.length digits) /\
    (List.length digits <= 32 ->
       number (run (ClickClear :: map ClickKey digits) w) =
         concat_strings digits).
Proof.
  intros digits w Hkeys.
  assert (Hnum : number (run (ClickClear :: map ClickKey digits) w) =
                 slice_string 32 (concat_strings digits)).
  { cbn [run step]. rewrite keys_number.
    - reflexivity.
    - cbn. lia. }
  split; [exact Hnum|]. split.
  - rewrite Hnum, slice_string_length_min, (keypad_keys_length digits Hkeys).
    reflexivity.
  - intros Hlen. rewrite Hnum. apply slice_string_short.
    rewrite (keypad_keys_length digits Hkeys). exact Hlen.
Qed.

Lemma keypad_dials_one_character_per_key_witness :
  (forall d, In d ["5"; "5"; "5"; "#"] -> In d keypad) /\
  List.length ["5"; "5"; "5"; "#"] <= 32 /\
  number (run (ClickClear :: map ClickKey ["5"; "5"; "5"; "#"]) online) =
    concat_strings ["5"; "5"; "5"; "#"].
Proof.
  assert (Hkeys : forall d, In d ["5"; "5"; "5"; "#"] -> In d keypad).
  { intros d Hd. simpl in Hd.
    destruct Hd as [Hd | [Hd | [Hd | [Hd | []]]]]; subst d; simpl; auto 20. }
  assert (Hlen : List.length ["5"; "5"; "5"; "#"] <= 32) by (simpl; lia).
  destruct (keypad_dials_one_character_per_key ["5"; "5"; "5"; "#"] online Hkeys)
    as (_ & _ & Hnum).
  split; [exact Hkeys|]. split; [exact Hlen | exact (Hnum Hlen)].
Defined.

(** ** Scenarios *)

(** The connection states seen while the engine brings the transport up and
    registers. *)
Example scenario_connect_then_register :
  map (fun inputs => status (run inputs initial))
      [ [TypePassword "p"; ClickConnect Built];
        [TypePassword "p"; ClickConnect Built; UAFires ev_connected];
        [TypePassword "p"; ClickConnect Built; UAFires ev_connected;
         UAFires ev_registered] ]
  = [connecting; connected; registered].
Proof. vm_compute. reflexivity. Qed.

(** The call states seen from a dial to the end of the call. *)
Example scenario_dial_then_end :
  map (fun inputs => callState (run inputs online))
      [ [ClickCall (announces 1)];
        [ClickCall (announces 1); CallFires ev_progress;
         SessionFires ev_progress];
        [ClickCall (announces 1); CallFires ev_progress;
         SessionFires ev_progress; CallFires ev_confirmed;
         SessionFires ev_confirmed];
        [ClickCall (announces 1); CallFires ev_progress;
         SessionFires ev_progress; CallFires ev_confirmed;
         SessionFires ev_confirmed; CallFires ev_ended; SessionFires ev_ended] ]
  = [idle; calling; in_call; terminated].
Proof. vm_compute. reflexivity. Qed.

(** A registration failure without a cause is logged as unknown. *)
Example scenario_registration_failed_unknown :
  logEntries (ua_registrationFailed None initial) =
    ["Registration failed: unknown"].
Proof. vm_compute. reflexivity. Qed.

(** A hangup on a call that has failed: the engine raises on terminate, and
    the call state and the log stay as the failure left them. *)
Example scenario_hangup_after_failure :
  callState (hangup (raises "Invalid status: 8") failed_call_world) = failed /\
  logEntries (hangup (raises "Invalid status: 8") failed_call_world) =
    logEntries failed_call_world /\
  calls_since failed_call_world
    (hangup (raises "Invalid status: 8") failed_call_world) =
    [SessionTerminate 1].
Proof. vm_compute. repeat split. Qed.
